(** * Replica client and replica manager of the App Configuration provider

    A shallow embedding of
    [azure/appconfiguration/provider/_replica_client.py]: the per-endpoint
    [ReplicaClient] (change detection, bulk loads, refreshes) and the
    [ReplicaClientManager] (active set, backoff, close).

    Python values are modelled as follows.
    - [int] is [Z] (unbounded, as in Python); the floats of [time.time()] and
      [random.uniform] are idealised as exact rationals [Q].
    - A [dict] is a heap object: the heap is a list of dictionaries and a
      reference is an index into it.  A dictionary keeps insertion order, so
      its contents are an association list.
    - Exceptions are an error result threaded through a state monad; the
      state survives a raise, as it does in Python.
    - The transport client [AzureAppConfigurationClient] and [json.loads] are
      external collaborators, taken as interfaces. *)

From Stdlib Require Import ZArith QArith Lia Lqa.
From stdpp Require Import base option list strings.

Local Open Scope Z_scope.

(** ** Exceptions and results *)

Inductive exn : Type :=
| HttpResponseError (status_code : option Z)
| JSONDecodeError (doc : string)
| ValueError (msg : string)
| OtherError (msg : string).

Inductive result (A : Type) : Type :=
| Ok (a : A)
| Raise (e : exn).
Arguments Ok {A} a.
Arguments Raise {A} e.

(** [e.status_code == 404] *)
Definition is_404 (e : exn) : bool :=
  match e with
  | HttpResponseError (Some c) => c =? 404
  | _ => false
  end.

(** ** Remote entries, selectors, dictionaries *)

(** [FeatureFlagConfigurationSetting] is a tagged subtype of
    [ConfigurationSetting]; the tag is what [isinstance] inspects. *)
Inductive setting_class : Type :=
| PlainSetting
| FeatureFlagConfigurationSetting.

Record ConfigurationSetting : Type := {
  key : string;
  label : string;
  value : string;
  etag : string;
  class_of : setting_class
}.

Definition isinstance_FeatureFlag (config : ConfigurationSetting) : bool :=
  match class_of config with
  | FeatureFlagConfigurationSetting => true
  | PlainSetting => false
  end.

Record SettingSelector : Type := {
  key_filter : string;
  label_filter : string
}.

(** Sentinel maps: [(key, label) -> etag], the etag possibly [None]. *)
Definition skey : Type := string * string.
Definition dict : Type := list (skey * option string).

(** [k in d] *)
Definition dict_contains (k : skey) (d : dict) : bool :=
  existsb (fun kv => bool_decide (kv.1 = k)) d.

(** [d[k] = v]: an existing key keeps its position, a new key goes last. *)
Fixpoint dict_set (k : skey) (v : option string) (d : dict) : dict :=
  match d with
  | [] => [(k, v)]
  | (k', v') :: rest =>
      if bool_decide (k' = k) then (k, v) :: rest
      else (k', v') :: dict_set k v rest
  end.

(** ** The world: transport state, heap of dictionaries, call trace *)

(** Identity of an [AzureAppConfigurationClient] object. *)
Definition handle : Type := nat.
(** Reference to a dictionary on the heap. *)
Definition loc : Type := nat.
Definition headers : Type := list (string * string).
(** Of the keyword arguments only ["sentinel_keys"] is inspected by this
    module; [kwargs] is that entry, when present. *)
Definition kwargs : Type := option loc.

(** What [list_configuration_settings] hands back: a lazily paged iterator,
    that is the entries it yields and the error, if any, that ends it. *)
Definition paged : Type := list ConfigurationSetting * option exn.

(** The transport client, an external collaborator.  [S] is the state of
    the remote store and of the connections.  The single-entry fetch is the
    conditional one ([match_condition=MatchConditions.IfModified]): [None]
    stands for not modified. *)
Class AzureAppConfigurationClient (S : Type) : Type := {
  client_get_configuration_setting :
    handle -> string -> string -> option string -> headers -> kwargs ->
    S -> result (option ConfigurationSetting) * S;
  client_list_configuration_settings :
    handle -> string -> string -> S -> paged * S;
  client_close : handle -> S -> option exn * S
}.

(** [json.loads]; [None] stands for a [JSONDecodeError]. *)
Class JsonDecoder (J : Type) : Type :=
  json_loads : string -> option J.

(** The trace records every call on a transport client with its outcome and
    every entry into one of the two bulk loads. *)
Inductive event : Type :=
| EvGet (client : handle) (k l : string) (e : option string)
        (outcome : result (option ConfigurationSetting))
| EvList (client : handle) (kf lf : string) (outcome : paged)
| EvClose (client : handle) (outcome : option exn)
| EvLoadConfigurationSettings
| EvLoadFeatureFlags.

Record world (S : Type) : Type := World {
  transport : S;
  heap : list dict;
  trace : list event
}.
Arguments World {S} _ _ _.
Arguments transport {S} _.
Arguments heap {S} _.
Arguments trace {S} _.

Definition is_reload (ev : event) : bool :=
  match ev with EvLoadConfigurationSettings => true | _ => false end.

Definition is_flag_reload (ev : event) : bool :=
  match ev with EvLoadFeatureFlags => true | _ => false end.

Definition count_events (p : event -> bool) (evs : list event) : nat :=
  length (List.filter p evs).

(** ** The monad of the client code *)

Definition M (S A : Type) : Type := world S -> result A * world S.

Definition ret {S A} (a : A) : M S A := fun w => (Ok a, w).

Definition raise {S A} (e : exn) : M S A := fun w => (Raise e, w).

Definition bind {S A B} (c : M S A) (k : A -> M S B) : M S B :=
  fun w =>
    match c w with
    | (Ok a, w') => k a w'
    | (Raise e, w') => (Raise e, w')
    end.

Declare Scope py_scope.
Delimit Scope py_scope with py.
Notation "x <- c ;; k" := (bind c (fun x => k))
  (at level 100, c at next level, right associativity) : py_scope.
Notation "c ;;; k" := (bind c (fun _ => k))
  (at level 100, right associativity) : py_scope.
Local Open Scope py_scope.

(** [try: c  except HttpResponseError as e: handler(e)] *)
Definition try_except_http {S A} (c : M S A) (handler : exn -> M S A) : M S A :=
  fun w =>
    match c w with
    | (Raise (HttpResponseError sc), w') => handler (HttpResponseError sc) w'
    | other => other
    end.

(** A [for] loop threading the local variables [acc] through its body. *)
Fixpoint for_each {S A B} (items : list A) (acc : B) (body : B -> A -> M S B)
    : M S B :=
  match items with
  | [] => ret acc
  | x :: rest => acc' <- body acc x ;; for_each rest acc' body
  end.

(** A [for] loop over a paged iterator: the body runs on each entry the
    iterator yields, then the iterator's own error, if any, is raised. *)
Definition for_paged {S B} (p : paged) (acc : B)
    (body : B -> ConfigurationSetting -> M S B) : M S B :=
  acc' <- for_each p.1 acc body ;;
  match p.2 with
  | Some e => raise e
  | None => ret acc'
  end.

Definition log {S} (ev : event) : M S unit :=
  fun w => (Ok tt, World (transport w) (heap w) (trace w ++ [ev])).

(** A new dictionary object. *)
Definition new_dict {S} (d : dict) : M S loc :=
  fun w => (Ok (length (heap w)), World (transport w) (heap w ++ [d]) (trace w)).

Definition heap_get (h : list dict) (r : loc) : dict := default [] (h !! r).

Definition read_dict {S} (r : loc) : M S dict :=
  fun w => (Ok (heap_get (heap w) r), w).

Definition write_dict {S} (r : loc) (d : dict) : M S unit :=
  fun w => (Ok tt, World (transport w) (<[r := d]> (heap w)) (trace w)).

(** [r[k] = v] on the dictionary object [r]. *)
Definition setitem {S} (r : loc) (k : skey) (v : option string) : M S unit :=
  d <- read_dict r ;; write_dict r (dict_set k v d).

(** ** The endpoint client *)

Record ReplicaClient : Type := {
  endpoint : string;
  _client : handle;
  backoff_end_time : Q;
  failed_attempts : Z
}.

(** [bool(t)] of a two-element tuple: a tuple is false only when empty. *)
Definition bool_of_pair {A B} (t : A * B) : bool := true.

Section Client.
Context {S : Type} `{!AzureAppConfigurationClient S}.
Context {J : Type} `{!JsonDecoder J}.
(** The constant of [_constants.py], which is not part of this file. *)
Variable FEATURE_FLAG_PREFIX : string.

(** [self._client.get_configuration_setting(key=.., label=.., etag=..,
    match_condition=MatchConditions.IfModified, headers=.., **kwargs)] *)
Definition call_get (c : handle) (k l : string) (e : option string)
    (hd : headers) (kw : kwargs) : M S (option ConfigurationSetting) :=
  fun w =>
    let '(r, s') := client_get_configuration_setting c k l e hd kw (transport w) in
    (r, World s' (heap w) (trace w ++ [EvGet c k l e r])).

(** [self._client.list_configuration_settings(key_filter=..,
    label_filter=.., **kwargs)] *)
Definition call_list (c : handle) (kf lf : string) : M S paged :=
  fun w =>
    let '(p, s') := client_list_configuration_settings c kf lf (transport w) in
    (Ok p, World s' (heap w) (trace w ++ [EvList c kf lf p])).

(** [client._client.close()] *)
Definition call_close (c : handle) : M S unit :=
  fun w =>
    let '(o, s') := client_close c (transport w) in
    (match o with Some e => Raise e | None => Ok tt end,
     World s' (heap w) (trace w ++ [EvClose c o])).

Definition _check_configuration_setting (self : ReplicaClient)
    (k l : string) (e : option string) (hd : headers) (kw : kwargs)
    : M S (bool * option ConfigurationSetting) :=
  try_except_http
    (updated_sentinel <- call_get (_client self) k l e hd kw ;;
     match updated_sentinel with
     | Some u => ret (true, Some u)
     | None => ret (false, None)
     end)
    (fun err =>
       if is_404 err then
         match e with
         | Some _ => ret (true, None)
         | None => ret (false, None)
         end
       else raise err).

(** The body of the inner loop of [load_configuration_settings], on one
    listed entry. *)
Definition load_setting (refresh_on sentinel_keys : loc)
    (configuration_settings : list ConfigurationSetting)
    (config : ConfigurationSetting) : M S (list ConfigurationSetting) :=
  (* the [isinstance] branch is [pass] *)
  let _ := if isinstance_FeatureFlag config then tt else tt in
  let configuration_settings := configuration_settings ++ [config] in
  watched <- read_dict refresh_on ;;
  if dict_contains (key config, label config) watched then
    setitem sentinel_keys (key config, label config) (Some (etag config)) ;;;
    ret configuration_settings
  else ret configuration_settings.

(** The body of its outer loop, on one selector. *)
Definition load_select (self : ReplicaClient) (refresh_on sentinel_keys : loc)
    (configuration_settings : list ConfigurationSetting)
    (select : SettingSelector) : M S (list ConfigurationSetting) :=
  configurations <-
    call_list (_client self) (key_filter select) (label_filter select) ;;
  for_paged configurations configuration_settings
    (load_setting refresh_on sentinel_keys).

Definition load_configuration_settings (self : ReplicaClient)
    (selects : list SettingSelector) (refresh_on : loc) (kw : kwargs)
    : M S (list ConfigurationSetting * loc) :=
  log EvLoadConfigurationSettings ;;;
  let configuration_settings := [] in
  let sentinel_keys := default refresh_on kw in
  configuration_settings <-
    for_each selects configuration_settings
      (load_select self refresh_on sentinel_keys) ;;
  ret (configuration_settings, sentinel_keys).

(** The body of the inner loop of [load_feature_flags], on one listed
    feature flag. *)
Definition load_flag (feature_flag_refresh_enabled : bool)
    (feature_flag_sentinel_keys : loc) (loaded_feature_flags : list J)
    (feature_flag : ConfigurationSetting) : M S (list J) :=
  match json_loads (value feature_flag) with
  | None => raise (JSONDecodeError (value feature_flag))
  | Some flag =>
      let loaded_feature_flags := loaded_feature_flags ++ [flag] in
      if feature_flag_refresh_enabled then
        setitem feature_flag_sentinel_keys
                (key feature_flag, label feature_flag)
                (Some (etag feature_flag)) ;;;
        ret loaded_feature_flags
      else ret loaded_feature_flags
  end.

(** The body of its outer loop, on one selector. *)
Definition load_flag_select (self : ReplicaClient)
    (feature_flag_refresh_enabled : bool) (feature_flag_sentinel_keys : loc)
    (loaded_feature_flags : list J) (select : SettingSelector)
    : M S (list J) :=
  feature_flags <-
    call_list (_client self)
      (FEATURE_FLAG_PREFIX +:+ key_filter select) (label_filter select) ;;
  for_paged feature_flags loaded_feature_flags
    (load_flag feature_flag_refresh_enabled feature_flag_sentinel_keys).

Definition load_feature_flags (self : ReplicaClient)
    (feature_flag_selectors : list SettingSelector)
    (feature_flag_refresh_enabled : bool) (kw : kwargs)
    : M S (list J * loc) :=
  log EvLoadFeatureFlags ;;;
  feature_flag_sentinel_keys <- new_dict [] ;;
  let loaded_feature_flags := [] in
  loaded_feature_flags <-
    for_each feature_flag_selectors loaded_feature_flags
      (load_flag_select self feature_flag_refresh_enabled
         feature_flag_sentinel_keys) ;;
  ret (loaded_feature_flags, feature_flag_sentinel_keys).

(** The body of the checking loop of [refresh_configuration_settings], on
    one watched pair. *)
Definition check_sentinel (self : ReplicaClient) (updated_sentinel_keys : loc)
    (hd : headers) (kw : kwargs) (need_refresh : bool)
    (item : skey * option string) : M S bool :=
  let '((k, l), e) := item in
  checked <- _check_configuration_setting self k l e hd kw ;;
  let '(changed, updated_sentinel) := checked in
  let need_refresh := if changed then true else need_refresh in
  match updated_sentinel with
  | Some u =>
      setitem updated_sentinel_keys (k, l) (Some (etag u)) ;;;
      ret need_refresh
  | None => ret need_refresh
  end.

(** The checking loop.  Assigning to the key being visited does not disturb
    the iteration, so the loop runs over the items as they were when it
    started. *)
Definition check_sentinels (self : ReplicaClient)
    (updated_sentinel_keys : loc) (items : dict) (hd : headers) (kw : kwargs)
    : M S bool :=
  for_each items false (check_sentinel self updated_sentinel_keys hd kw).

Definition refresh_configuration_settings (self : ReplicaClient)
    (selects : list SettingSelector) (refresh_on : loc) (hd : headers)
    (kw : kwargs) : M S (bool * loc * list ConfigurationSetting) :=
  watched <- read_dict refresh_on ;;
  updated_sentinel_keys <- new_dict watched ;;
  items <- read_dict updated_sentinel_keys ;;
  need_refresh <- check_sentinels self updated_sentinel_keys items hd kw ;;
  if need_refresh then
    loaded <- load_configuration_settings self selects refresh_on kw ;;
    let '(configuration_settings, sentinel_keys) := loaded in
    ret (true, sentinel_keys, configuration_settings)
  else ret (false, refresh_on, []).

(** The loop of [refresh_feature_flags].  [changed] is bound to the whole
    tuple returned by the check, and [if changed] tests that tuple. *)
Fixpoint refresh_feature_flags_loop (self : ReplicaClient) (items : dict)
    (feature_flag_selectors : list SettingSelector) (hd : headers)
    (kw : kwargs) : M S (bool * option loc * option (list J)) :=
  match items with
  | [] => ret (false, None, None)
  | ((k, l), e) :: rest =>
      changed <- _check_configuration_setting self k l e hd kw ;;
      if bool_of_pair changed then
        loaded <- load_feature_flags self feature_flag_selectors true kw ;;
        let '(feature_flags, feature_flag_sentinel_keys) := loaded in
        ret (true, Some feature_flag_sentinel_keys, Some feature_flags)
      else
        refresh_feature_flags_loop self rest feature_flag_selectors hd kw
  end.

Definition refresh_feature_flags (self : ReplicaClient) (refresh_on : loc)
    (feature_flag_selectors : list SettingSelector) (hd : headers)
    (kw : kwargs) : M S (bool * option loc * option (list J)) :=
  watched <- read_dict refresh_on ;;
  feature_flag_sentinel_keys <- new_dict watched ;;
  items <- read_dict feature_flag_sentinel_keys ;;
  refresh_feature_flags_loop self items feature_flag_selectors hd kw.

End Client.

(** ** The manager's backoff arithmetic *)

(** [x << n] on Python integers: a negative shift count raises
    [ValueError]; there is no overflow. *)
Definition py_lshift (x n : Z) : result Z :=
  if n <? 0 then Raise (ValueError "negative shift count")
  else Ok (Z.shiftl x n).

(** The manager iterates [_replica_clients] and reads each element's
    fields, so the collection is the ordered sequence of its clients. *)
Record ReplicaClientManager : Type := {
  _replica_clients : list ReplicaClient;
  _min_backoff : Z;
  _max_backoff : Z
}.

(** [_calculate_backoff(attempts)]; [jitter] is the value drawn by
    [random.uniform(0.0, 1.0)]. *)
Definition _calculate_backoff (self : ReplicaClientManager)
    (attempts : Z) (jitter : Q) : result Q :=
  let max_attempts := 63 in
  let ms_per_second := 1000 in
  let min_backoff_milliseconds := _min_backoff self * ms_per_second in
  let max_backoff_milliseconds := _max_backoff self * ms_per_second in
  if _max_backoff self <=? _min_backoff self then
    Ok (inject_Z min_backoff_milliseconds)
  else
    match py_lshift 1 (Z.min attempts max_attempts) with
    | Raise e => Raise e
    | Ok pow =>
        let calculated_milliseconds := Z.max 1 min_backoff_milliseconds * pow in
        let calculated_milliseconds :=
          if (calculated_milliseconds >? max_backoff_milliseconds)
             || (calculated_milliseconds <=? 0)
          then max_backoff_milliseconds
          else calculated_milliseconds in
        Ok (inject_Z min_backoff_milliseconds
            + jitter * inject_Z (calculated_milliseconds - min_backoff_milliseconds))%Q
    end.

(** [get_active_clients()].  [time.time()] is read once per client;
    [time_time i] is its [i]-th reading, in seconds. *)
Fixpoint active_clients_loop (time_time : nat -> Q) (i : nat)
    (clients active_clients : list ReplicaClient) : list ReplicaClient :=
  match clients with
  | [] => active_clients
  | client :: rest =>
      let active_clients :=
        if Qle_bool (backoff_end_time client) (time_time i * 1000)
        then active_clients ++ [client]
        else active_clients in
      active_clients_loop time_time (Datatypes.S i) rest active_clients
  end.

Definition get_active_clients (self : ReplicaClientManager)
    (time_time : nat -> Q) : list ReplicaClient :=
  active_clients_loop time_time 0 (_replica_clients self) [].

(** [backoff(client)] mutates the client object; the client after the call
    is returned next to the outcome.  [jitter] is the draw of
    [random.uniform] and [now] the reading of [time.time()], in seconds. *)
Definition backoff (self : ReplicaClientManager) (client : ReplicaClient)
    (jitter now : Q) : result unit * ReplicaClient :=
  let client :=
    {| endpoint := endpoint client; _client := _client client;
       backoff_end_time := backoff_end_time client;
       failed_attempts := failed_attempts client + 1 |} in
  match _calculate_backoff self (failed_attempts client) jitter with
  | Raise e => (Raise e, client)
  | Ok backoff_time =>
      (Ok tt,
       {| endpoint := endpoint client; _client := _client client;
          backoff_end_time := (now * 1000 + backoff_time)%Q;
          failed_attempts := failed_attempts client |})
  end.

Definition _get_client_count (self : ReplicaClientManager) : nat :=
  length (_replica_clients self).

(** [close()] *)
Definition close {S : Type} `{!AzureAppConfigurationClient S}
    (self : ReplicaClientManager) : M S unit :=
  for_each (_replica_clients self) tt
    (fun _ client => call_close (_client client)).

(** ** Specification-side notions *)

(** The exponential ceiling of the backoff: the shifted floor, clamped. *)
Definition backoff_ceiling (self : ReplicaClientManager) (attempts : Z) : Z :=
  let lo := _min_backoff self * 1000 in
  let hi := _max_backoff self * 1000 in
  let c := Z.max 1 lo * 2 ^ Z.min attempts 63 in
  if (c >? hi) || (c <=? 0) then hi else c.

(** The clients after each of a run of consecutive [backoff] calls on one
    endpoint; a call is its jitter draw and its clock reading. *)
Fixpoint backoff_run (self : ReplicaClientManager) (client : ReplicaClient)
    (calls : list (Q * Q)) : list ReplicaClient :=
  match calls with
  | [] => []
  | (jitter, now) :: rest =>
      let client' := (backoff self client jitter now).2 in
      client' :: backoff_run self client' rest
  end.

(** What [_check_configuration_setting] makes of the transport's outcome
    for a watched pair whose known etag is [e]. *)
Definition check_result (e : option string)
    (o : result (option ConfigurationSetting))
    : result (bool * option ConfigurationSetting) :=
  match o with
  | Ok (Some u) => Ok (true, Some u)
  | Ok None => Ok (false, None)
  | Raise err =>
      if is_404 err then
        match e with
        | Some _ => Ok (true, None)
        | None => Ok (false, None)
        end
      else Raise err
  end.

(** Every watched pair, checked in turn, reports no change. *)
Fixpoint no_change_detected {S : Type} `{!AzureAppConfigurationClient S}
    (self : ReplicaClient) (items : dict) (hd : headers) (kw : kwargs)
    (w : world S) : Prop :=
  match items with
  | [] => True
  | ((k, l), e) :: rest =>
      exists u w1,
        _check_configuration_setting self k l e hd kw w = (Ok (false, u), w1)
        /\ no_change_detected self rest hd kw w1
  end.

(** The heap after the inner loop of [load_configuration_settings] has
    processed one entry. *)
Definition sentinel_step (refresh_on sentinel_keys : loc) (h : list dict)
    (config : ConfigurationSetting) : list dict :=
  if dict_contains (key config, label config) (heap_get h refresh_on)
  then <[sentinel_keys :=
           dict_set (key config, label config) (Some (etag config))
                    (heap_get h sentinel_keys)]> h
  else h.

(** One step of the sentinel refresh done by a full load: a loaded entry
    whose pair is watched stores its etag. *)
Definition refresh_sentinel (d : dict) (config : ConfigurationSetting) : dict :=
  if dict_contains (key config, label config) d
  then dict_set (key config, label config) (Some (etag config)) d
  else d.

(** Among the events [evs], some listing handed back an entry whose value
    [json.loads] rejects. *)
Definition lists_invalid_json {J : Type} `{!JsonDecoder J}
    (evs : list event) : Prop :=
  exists h kf lf p c,
    EvList h kf lf p ∈ evs /\ c ∈ p.1
    /\ json_loads (J := J) (value c) = None.

(** The outcome is the decoding error of a listed entry. *)
Definition raises_json_error {J : Type} `{!JsonDecoder J} {A : Type}
    (r : result A) : Prop :=
  exists c, r = Raise (JSONDecodeError (value c))
    /\ json_loads (J := J) (value c) = None.

(** ** A small concrete store, used in examples

    The client with handle [0] is out of order: its calls fail with status
    503 and it cannot be closed.  Every other client reads the store. *)
Definition store : Type := list ConfigurationSetting.

Definition store_find (k l : string) (s : store) : option ConfigurationSetting :=
  List.find (fun c => bool_decide (key c = k) && bool_decide (label c = l)) s.

Definition store_client : AzureAppConfigurationClient store := {|
  client_get_configuration_setting c k l e hd kw s :=
    if bool_decide (c = 0%nat) then (Raise (HttpResponseError (Some 503)), s)
    else match store_find k l s with
         | Some cs =>
             if bool_decide (e = Some (etag cs)) then (Ok None, s)
             else (Ok (Some cs), s)
         | None => (Raise (HttpResponseError (Some 404)), s)
         end;
  client_list_configuration_settings c kf lf s :=
    if bool_decide (c = 0%nat) then (([], Some (HttpResponseError (Some 503))), s)
    else ((List.filter (fun cs => String.prefix kf (key cs)
                                  && bool_decide (label cs = lf)) s, None), s);
  client_close c s :=
    (if bool_decide (c = 0%nat) then Some (OtherError "connection reset")
     else None, s)
|}.

(** A stand-in for [json.loads]: a document is accepted when it opens a
    JSON object. *)
Definition braces_decoder : JsonDecoder string :=
  fun doc => if String.prefix "{" doc then Some doc else None.

Definition demo_prefix : string := ".appconfig.featureflag/".

Definition demo_flag : ConfigurationSetting :=
  {| key := ".appconfig.featureflag/beta"; label := "prod";
     value := "{ }"; etag := "v1";
     class_of := FeatureFlagConfigurationSetting |}.

Definition demo_setting : ConfigurationSetting :=
  {| key := "color"; label := "prod"; value := "red"; etag := "v7";
     class_of := PlainSetting |}.

Definition demo_broken_flag : ConfigurationSetting :=
  {| key := ".appconfig.featureflag/gamma"; label := "prod";
     value := "not json"; etag := "v2";
     class_of := FeatureFlagConfigurationSetting |}.

Definition demo_replica (h : handle) : ReplicaClient :=
  {| endpoint := "https://store.example"; _client := h;
     backoff_end_time := 0; failed_attempts := 0 |}.

Arguments demo_replica h%_nat_scope.

Definition demo_world (s : store) (h : list dict) : world store :=
  World s h [].

(** ** Notions used to read a trace *)

(** The entries that the listings among [evs] yielded, in order. *)
Definition listed_entries (evs : list event) : list ConfigurationSetting :=
  flat_map (fun ev => match ev with EvList _ _ _ p => p.1 | _ => [] end) evs.

(** The listings among [evs]: client, key filter and label filter. *)
Definition list_calls (evs : list event) : list (handle * string * string) :=
  flat_map (fun ev => match ev with
                      | EvList h kf lf _ => [(h, kf, lf)]
                      | _ => []
                      end) evs.

Definition is_plain (config : ConfigurationSetting) : bool :=
  negb (isinstance_FeatureFlag config).

(** [d[(key, label)] = etag] when the pair is in [watched]. *)
Definition collect_sentinel (watched d : dict) (config : ConfigurationSetting)
    : dict :=
  if dict_contains (key config, label config) watched
  then dict_set (key config, label config) (Some (etag config)) d
  else d.

(** [d[(key, label)] = etag] *)
Definition track_flag (d : dict) (flag : ConfigurationSetting) : dict :=
  dict_set (key flag, label flag) (Some (etag flag)) d.

(** The floor and the cap of the backoff, in milliseconds. *)
Definition min_ms (self : ReplicaClientManager) : Z := _min_backoff self * 1000.
Definition max_ms (self : ReplicaClientManager) : Z := _max_backoff self * 1000.

(** The errors that ended listings among [evs]. *)
Definition listing_errors (evs : list event) : list exn :=
  flat_map (fun ev => match ev with
                      | EvList _ _ _ (_, Some e) => [e]
                      | _ => []
                      end) evs.

(** The listing that [load_configuration_settings] makes for a selector. *)
Definition settings_call (self : ReplicaClient) (select : SettingSelector)
    : handle * string * string :=
  (_client self, key_filter select, label_filter select).

(** The listing that [load_feature_flags] makes for a selector. *)
Definition flags_call (FEATURE_FLAG_PREFIX : string) (self : ReplicaClient)
    (select : SettingSelector) : handle * string * string :=
  (_client self, FEATURE_FLAG_PREFIX +:+ key_filter select, label_filter select).

(** [flag] is what [json.loads] makes of the value of [config]. *)
Definition decodes {J : Type} `{!JsonDecoder J} (flag : J)
    (config : ConfigurationSetting) : Prop :=
  json_loads (value config) = Some flag.

#[global] Instance Qle_decision (x y : Q) : Decision (x <= y)%Q :=
  Z_le_dec (Qnum x * QDen y) (Qnum y * QDen x).

(** * Properties *)

(** Boolean comparisons on [Z] in hypotheses, turned into propositions. *)
Ltac z_of_bool :=
  repeat match goal with
  | H : (_ || _) = false |- _ => apply orb_false_iff in H as [? ?]
  | H : (_ >? _) = _ |- _ => rewrite Z.gtb_ltb in H
  | H : (_ <? _) = true |- _ => apply Z.ltb_lt in H
  | H : (_ <? _) = false |- _ => apply Z.ltb_ge in H
  | H : (_ <=? _) = true |- _ => apply Z.leb_le in H
  | H : (_ <=? _) = false |- _ => apply Z.leb_gt in H
  end.

Section Backoff.

Variable self : ReplicaClientManager.

Lemma calculate_backoff_degenerate attempts jitter :
  _max_backoff self <= _min_backoff self ->
  _calculate_backoff self attempts jitter
  = Ok (inject_Z (_min_backoff self * 1000)).
Proof.
  intros Hle. unfold _calculate_backoff.
  destruct (Z.leb_spec (_max_backoff self) (_min_backoff self)); [reflexivity | lia].
Qed.

Lemma calculate_backoff_jittered attempts jitter :
  _min_backoff self < _max_backoff self -> 0 <= attempts ->
  _calculate_backoff self attempts jitter
  = Ok (inject_Z (_min_backoff self * 1000)
        + jitter * inject_Z (backoff_ceiling self attempts
                             - _min_backoff self * 1000))%Q.
Proof.
  intros Hlt Ha. unfold _calculate_backoff, py_lshift, backoff_ceiling.
  destruct (Z.leb_spec (_max_backoff self) (_min_backoff self)); [lia |].
  destruct (Z.ltb_spec (Z.min attempts 63) 0); [lia |].
  rewrite Z.shiftl_1_l. reflexivity.
Qed.

Lemma backoff_ceiling_bounds attempts :
  _min_backoff self < _max_backoff self -> 0 <= attempts ->
  _min_backoff self * 1000 <= backoff_ceiling self attempts
  <= _max_backoff self * 1000.
Proof.
  intros Hlt Ha. unfold backoff_ceiling.
  set (lo := _min_backoff self * 1000). set (hi := _max_backoff self * 1000).
  assert (Hp : 1 <= 2 ^ Z.min attempts 63).
  { assert (0 < 2 ^ Z.min attempts 63) by (apply Z.pow_pos_nonneg; lia). lia. }
  destruct ((_ >? hi) || (_ <=? 0)) eqn:Hc.
  - subst lo hi. lia.
  - z_of_bool. split; [nia | lia].
Qed.

Lemma backoff_ceiling_mono a b :
  _min_backoff self < _max_backoff self -> 0 <= a <= b ->
  backoff_ceiling self a <= backoff_ceiling self b.
Proof.
  intros Hlt Hab. pose proof (backoff_ceiling_bounds b Hlt ltac:(lia)) as Hb.
  revert Hb. unfold backoff_ceiling.
  set (lo := _min_backoff self * 1000). set (hi := _max_backoff self * 1000).
  assert (Hpa : 0 < 2 ^ Z.min a 63) by (apply Z.pow_pos_nonneg; lia).
  assert (Hpow : 2 ^ Z.min a 63 <= 2 ^ Z.min b 63)
    by (apply Z.pow_le_mono_r; lia).
  intros Hb.
  destruct ((Z.max 1 lo * 2 ^ Z.min b 63 >? hi) || (_ <=? 0)) eqn:Hcb.
  - destruct ((Z.max 1 lo * 2 ^ Z.min a 63 >? hi) || (_ <=? 0)) eqn:Hca; [lia |].
    z_of_bool. lia.
  - z_of_bool.
    assert (Hle : Z.max 1 lo * 2 ^ Z.min a 63 <= Z.max 1 lo * 2 ^ Z.min b 63)
      by (apply Z.mul_le_mono_nonneg_l; lia).
    destruct ((Z.max 1 lo * 2 ^ Z.min a 63 >? hi) || (_ <=? 0)) eqn:Hca; [| lia].
    apply orb_true_iff in Hca as [Hca | Hca]; z_of_bool; [lia | nia].
Qed.

(** C3: for every attempts count of at least one and every jitter draw in
    [[0,1]], [_calculate_backoff] returns exactly [min_backoff * 1000] when
    [max_backoff <= min_backoff], and otherwise a duration within
    [[min_backoff * 1000, max_backoff * 1000]]. *)
Theorem calculate_backoff_range (attempts : Z) (jitter : Q) :
  1 <= attempts -> (0 <= jitter)%Q -> (jitter <= 1)%Q ->
  (_max_backoff self <= _min_backoff self ->
   _calculate_backoff self attempts jitter
   = Ok (inject_Z (_min_backoff self * 1000)))
  /\ (_min_backoff self < _max_backoff self ->
      exists d, _calculate_backoff self attempts jitter = Ok d
        /\ (inject_Z (_min_backoff self * 1000) <= d)%Q
        /\ (d <= inject_Z (_max_backoff self * 1000))%Q).
Proof.
  intros Ha Hj0 Hj1. split.
  - apply calculate_backoff_degenerate.
  - intros Hlt. eexists. split.
    + apply calculate_backoff_jittered; [exact Hlt | lia].
    + destruct (backoff_ceiling_bounds attempts Hlt ltac:(lia)) as [Hlo Hhi].
      rewrite Zle_Qle in Hlo, Hhi.
      unfold Z.sub. rewrite inject_Z_plus, inject_Z_opp.
      set (lo := inject_Z (_min_backoff self * 1000)) in *.
      set (c := inject_Z (backoff_ceiling self attempts)) in *.
      set (hi := inject_Z (_max_backoff self * 1000)) in *.
      assert (H0 : (0 <= jitter * (c + - lo))%Q)
        by (apply Qmult_le_0_compat; lra).
      assert (H1 : (jitter * (c + - lo) <= 1 * (c + - lo))%Q)
        by (apply Qmult_le_compat_r; lra).
      split; lra.
Qed.

End Backoff.

Lemma calculate_backoff_range_witness :
  let m := {| _replica_clients := []; _min_backoff := 30; _max_backoff := 600 |} in
  exists d, _calculate_backoff m 3 (1 # 2) = Ok d
    /\ (inject_Z 30000 <= d)%Q /\ (d <= inject_Z 600000)%Q.
Proof.
  intros m.
  exact (proj2 (calculate_backoff_range m 3 (1 # 2)
                  ltac:(lia) ltac:(discriminate) ltac:(discriminate))
               ltac:(reflexivity)).
Defined.

(** ** The active set *)

Section ActiveClients.

Variable self : ReplicaClientManager.

Lemma now_in_seconds (now : Q) : (now / 1000 * 1000 == now)%Q.
Proof. field. Qed.

Lemma active_clients_loop_filter (now : Q) clients :
  forall i active_clients,
    active_clients_loop (fun _ => now / 1000)%Q i clients active_clients
    = active_clients ++ filter (fun c => (backoff_end_time c <= now)%Q) clients.
Proof.
  induction clients as [| c rest IH]; intros i acc; simpl.
  - by rewrite app_nil_r.
  - rewrite IH, filter_cons.
    destruct (Qle_bool (backoff_end_time c) (now / 1000 * 1000)) eqn:Hb.
    + apply Qle_bool_iff in Hb. rewrite now_in_seconds in Hb.
      rewrite decide_True by exact Hb. by rewrite <- app_assoc.
    + rewrite decide_False; [done |].
      intros Hle. rewrite <- (now_in_seconds now) in Hle.
      apply Qle_bool_iff in Hle. congruence.
Qed.

(** C4: [get_active_clients] returns exactly the endpoints whose
    [backoff_end_time] is at most the current time [now] (in milliseconds),
    leaving out exactly those whose [backoff_end_time] is later, and the
    result keeps the configured order. *)
Theorem get_active_clients_exact (now : Q) :
  let active := get_active_clients self (fun _ => now / 1000)%Q in
  active = filter (fun c => (backoff_end_time c <= now)%Q) (_replica_clients self)
  /\ (forall c, c ∈ active <->
                c ∈ _replica_clients self /\ (backoff_end_time c <= now)%Q)
  /\ (forall c, c ∈ _replica_clients self ->
                (now < backoff_end_time c)%Q -> c ∉ active)
  /\ active `sublist_of` _replica_clients self.
Proof.
  intros active.
  assert (Heq : active
    = filter (fun c => (backoff_end_time c <= now)%Q) (_replica_clients self)).
  { subst active. unfold get_active_clients.
    by rewrite active_clients_loop_filter. }
  split; [exact Heq |]. rewrite Heq. split; [| split].
  - intros c. rewrite list_elem_of_filter. tauto.
  - intros c _ Hlt Hin. apply list_elem_of_filter in Hin as [Hle _].
    apply Qlt_not_le in Hlt. contradiction.
  - apply sublist_filter.
Qed.

End ActiveClients.

(** ** Consecutive backoffs *)

Section BackoffRun.

Variable self : ReplicaClientManager.

Lemma backoff_attempts client jitter now :
  failed_attempts (backoff self client jitter now).2
  = failed_attempts client + 1.
Proof.
  unfold backoff. simpl.
  by destruct (_calculate_backoff self (failed_attempts client + 1) jitter).
Qed.

Lemma backoff_end_time_degenerate client jitter now :
  _max_backoff self <= _min_backoff self ->
  backoff_end_time (backoff self client jitter now).2
  = (now * 1000 + inject_Z (_min_backoff self * 1000))%Q.
Proof.
  intros Hle. unfold backoff. simpl.
  by rewrite calculate_backoff_degenerate.
Qed.

Lemma backoff_end_time_jittered client jitter now :
  _min_backoff self < _max_backoff self -> 0 <= failed_attempts client ->
  backoff_end_time (backoff self client jitter now).2
  = (now * 1000
     + (inject_Z (_min_backoff self * 1000)
        + jitter * inject_Z (backoff_ceiling self (failed_attempts client + 1)
                             - _min_backoff self * 1000)))%Q.
Proof.
  intros Hlt Ha. unfold backoff. simpl.
  by rewrite calculate_backoff_jittered by lia.
Qed.

(** Two consecutive calls: the later end time is not earlier when the later
    jitter draw is not smaller. *)
Lemma backoff_twice_le client j1 t1 j2 t2 :
  0 <= failed_attempts client ->
  (t1 <= t2)%Q -> (0 <= j1)%Q -> (j2 <= 1)%Q ->
  (j1 <= j2)%Q \/ _max_backoff self <= _min_backoff self ->
  let c1 := (backoff self client j1 t1).2 in
  let c2 := (backoff self c1 j2 t2).2 in
  (backoff_end_time c1 <= backoff_end_time c2)%Q.
Proof.
  intros Ha Ht Hj1 Hj2 Hj c1 c2.
  destruct (Z_le_gt_dec (_max_backoff self) (_min_backoff self)) as [Hdeg | Hlt].
  - subst c1 c2. rewrite !backoff_end_time_degenerate by exact Hdeg. lra.
  - destruct Hj as [Hj | Hdeg]; [| lia].
    assert (Hlt' : _min_backoff self < _max_backoff self) by lia.
    subst c2. rewrite backoff_end_time_jittered
      by (subst c1; rewrite ?backoff_attempts; lia).
    subst c1. rewrite backoff_attempts, backoff_end_time_jittered by lia.
    set (a := failed_attempts client + 1).
    pose proof (backoff_ceiling_bounds self a Hlt' ltac:(lia)) as [Hlo _].
    pose proof (backoff_ceiling_mono self a (a + 1) Hlt' ltac:(lia)) as Hmono.
    rewrite Zle_Qle in Hlo, Hmono.
    unfold Z.sub. rewrite !inject_Z_plus, !inject_Z_opp.
    set (lo := inject_Z (_min_backoff self * 1000)) in *.
    set (x1 := inject_Z (backoff_ceiling self a)) in *.
    set (x2 := inject_Z (backoff_ceiling self (a + 1))) in *.
    assert (H1 : (j1 * (x1 + - lo) <= j2 * (x1 + - lo))%Q)
      by (apply Qmult_le_compat_r; lra).
    assert (H2 : (j2 * (x1 + - lo) <= j2 * (x2 + - lo))%Q)
      by (rewrite !(Qmult_comm j2); apply Qmult_le_compat_r; lra).
    lra.
Qed.

(** C7, amended: along a run of consecutive [backoff] calls on an endpoint
    whose failure count is not negative, with clock readings that do not
    decrease and jitter draws in [[0,1]], [backoff_end_time] does not
    decrease from one call to the next whenever the later call's jitter draw
    is at least the earlier one's, or no jitter applies because
    [max_backoff <= min_backoff]. *)
Theorem backoff_run_monotone (calls : list (Q * Q)) :
  forall client : ReplicaClient,
  0 <= failed_attempts client ->
  Forall (fun call => (0 <= call.1)%Q /\ (call.1 <= 1)%Q) calls ->
  (forall i a b, calls !! i = Some a -> calls !! Datatypes.S i = Some b ->
     (a.2 <= b.2)%Q
     /\ ((a.1 <= b.1)%Q \/ _max_backoff self <= _min_backoff self)) ->
  forall i c1 c2,
    backoff_run self client calls !! i = Some c1 ->
    backoff_run self client calls !! Datatypes.S i = Some c2 ->
    (backoff_end_time c1 <= backoff_end_time c2)%Q.
Proof.
  induction calls as [| [j1 t1] rest IH]; intros client Ha Hall Hadj i c1 c2 H1 H2.
  - discriminate.
  - destruct rest as [| [j2 t2] rest']; [destruct i; discriminate |].
    apply Forall_cons in Hall as [[Hj10 Hj11] Hall].
    destruct i as [| i].
    + simpl in H1, H2. injection H1 as <-. injection H2 as <-.
      destruct (Hadj 0%nat (j1, t1) (j2, t2) eq_refl eq_refl) as [Ht Hj].
      apply Forall_cons in Hall as [[_ Hj21] _].
      apply backoff_twice_le; assumption.
    + apply (IH (backoff self client j1 t1).2) with (i := i).
      * rewrite backoff_attempts. lia.
      * exact Hall.
      * intros k a b Hk1 Hk2. apply (Hadj (Datatypes.S k)); assumption.
      * exact H1.
      * exact H2.
Qed.

End BackoffRun.

Lemma backoff_run_monotone_witness :
  let m := {| _replica_clients := []; _min_backoff := 1; _max_backoff := 100 |} in
  let c := {| endpoint := "https://store.example"; _client := 0%nat;
              backoff_end_time := 0; failed_attempts := 0 |} in
  let run := backoff_run m c [(1 # 4, 10); (1 # 2, 11)]%Q in
  exists c1 c2,
    run !! 0%nat = Some c1 /\ run !! 1%nat = Some c2
    /\ (backoff_end_time c1 <= backoff_end_time c2)%Q.
Proof.
  intros m c run. eexists _, _.
  split; [reflexivity |]. split; [reflexivity |].
  apply (backoff_run_monotone m [(1 # 4, 10); (1 # 2, 11)]%Q c) with (i := 0%nat).
  - simpl. lia.
  - repeat constructor; simpl; discriminate.
  - intros [| [| i]] a b Ha Hb; simpl in Ha, Hb; try discriminate.
    injection Ha as <-. injection Hb as <-. simpl.
    split; [| left]; discriminate.
  - reflexivity.
  - reflexivity.
Defined.

(** C7 as stated fails: with a jitter draw of one followed by a draw of zero
    the second call ends the backoff window earlier than the first, although
    the clock has advanced. *)
Lemma backoff_end_time_can_decrease :
  ~ (forall (self : ReplicaClientManager) (client : ReplicaClient)
            (j1 t1 j2 t2 : Q),
       0 <= failed_attempts client ->
       (t1 <= t2)%Q ->
       (0 <= j1)%Q -> (j1 <= 1)%Q -> (0 <= j2)%Q -> (j2 <= 1)%Q ->
       let c1 := (backoff self client j1 t1).2 in
       let c2 := (backoff self c1 j2 t2).2 in
       (backoff_end_time c1 <= backoff_end_time c2)%Q).
Proof.
  intros H.
  specialize (H {| _replica_clients := []; _min_backoff := 1; _max_backoff := 100 |}
                {| endpoint := "https://store.example"; _client := 0%nat;
                   backoff_end_time := 0; failed_attempts := 0 |}
                1%Q 0%Q 0%Q (1 # 2)%Q).
  vm_compute in H.
  apply H; first [discriminate | reflexivity].
Qed.

(** ** The endpoint client *)

Section ClientFacts.

Context {S : Type} `{!AzureAppConfigurationClient S}.
Context {J : Type} `{!JsonDecoder J}.

Lemma bind_run {A B} (c : M S A) (k : A -> M S B) (w : world S) :
  bind c k w
  = match c w with
    | (Ok a, w1) => k a w1
    | (Raise e, w1) => (Raise e, w1)
    end.
Proof. reflexivity. Qed.

Lemma for_each_cons {A B} (x : A) (rest : list A) (acc : B)
    (body : B -> A -> M S B) :
  for_each (x :: rest) acc body
  = bind (body acc x) (fun acc' => for_each rest acc' body).
Proof. reflexivity. Qed.

Lemma check_configuration_setting_unfold self k l e hd kw (w : world S) :
  _check_configuration_setting self k l e hd kw w
  = let '(o, s') :=
      client_get_configuration_setting (_client self) k l e hd kw (transport w) in
    (check_result e o,
     World s' (heap w) (trace w ++ [EvGet (_client self) k l e o])).
Proof.
  unfold _check_configuration_setting, try_except_http, bind, call_get.
  destruct (client_get_configuration_setting _ _ _ _ _ _ _) as [o s'].
  destruct o as [[u |] | err]; simpl; try reflexivity.
  destruct err as [[c |] | | |]; simpl; try reflexivity.
  destruct (c =? 404); [destruct e |]; reflexivity.
Qed.

(** C5: when the transport raises a 404 error, the check returns
    [(true, None)] if a prior etag was known and [(false, None)] without
    raising if none was; the check raises exactly when the transport raises
    an error other than 404, and then it raises that very error. *)
Theorem check_configuration_setting_errors (self : ReplicaClient)
    (k l : string) (e : option string) (hd : headers) (kw : kwargs)
    (w : world S) (o : result (option ConfigurationSetting)) (s' : S) :
  client_get_configuration_setting (_client self) k l e hd kw (transport w)
  = (o, s') ->
  let r := (_check_configuration_setting self k l e hd kw w).1 in
  (forall err, o = Raise err -> is_404 err = true ->
     (is_Some e -> r = Ok (true, None)) /\ (e = None -> r = Ok (false, None)))
  /\ (forall err, r = Raise err <-> o = Raise err /\ is_404 err = false).
Proof.
  intros Hget r. subst r.
  rewrite check_configuration_setting_unfold, Hget. simpl. split.
  - intros err -> H404. simpl. rewrite H404. split.
    + by intros [x ->].
    + by intros ->.
  - intros err. destruct o as [[u |] | err']; simpl.
    + split; [discriminate | intros [? _]; discriminate].
    + split; [discriminate | intros [? _]; discriminate].
    + destruct (is_404 err') eqn:H404.
      * split; [destruct e; discriminate |].
        intros [[= ->] ?]. congruence.
      * split; [intros [= ->]; by split | intros [[= ->] _]; reflexivity].
Qed.

(** The manager's [close] walks the clients in order and stops at the first
    one whose [close] raises. *)
Lemma close_loop_trace (clients : list ReplicaClient) :
  forall (w : world S) r w',
    for_each clients tt (fun _ client => call_close (_client client)) w = (r, w') ->
    match r with
    | Ok _ =>
        trace w' = trace w ++ map (fun c => EvClose (_client c) None) clients
    | Raise e =>
        exists before failing after,
          clients = before ++ failing :: after
          /\ trace w' = trace w
               ++ map (fun c => EvClose (_client c) None) before
               ++ [EvClose (_client failing) (Some e)]
    end.
Proof.
  induction clients as [| c rest IH]; intros w r w' Hrun.
  - injection Hrun as <- <-. by rewrite app_nil_r.
  - rewrite for_each_cons, bind_run in Hrun. unfold call_close in Hrun.
    destruct (client_close (_client c) (transport w)) as [[e |] s1] eqn:Hc.
    + injection Hrun as <- <-. exists [], c, rest. by split.
    + apply IH in Hrun. simpl in Hrun. destruct r as [[] | e].
      * rewrite Hrun. by rewrite <- app_assoc.
      * destruct Hrun as (before & failing & after & -> & ->).
        exists (c :: before), failing, after. split; [done |].
        simpl. by rewrite <- !app_assoc.
Qed.

(** C8, amended: [close] closes the endpoints' clients in configured order.
    When no client's [close] raises, every client is closed.  When one
    raises, the error propagates at once: the clients before it have been
    closed, and no client after it is attempted. *)
Theorem close_stops_at_first_failure (self : ReplicaClientManager)
    (w : world S) (r : result unit) (w' : world S) :
  close self w = (r, w') ->
  match r with
  | Ok _ =>
      trace w' = trace w
        ++ map (fun c => EvClose (_client c) None) (_replica_clients self)
  | Raise e =>
      exists before failing after,
        _replica_clients self = before ++ failing :: after
        /\ trace w' = trace w
             ++ map (fun c => EvClose (_client c) None) before
             ++ [EvClose (_client failing) (Some e)]
  end.
Proof. apply close_loop_trace. Qed.

End ClientFacts.

Lemma check_configuration_setting_errors_witness :
  (@_check_configuration_setting store store_client (demo_replica 1)
     "color" "prod" (Some "v7") [] None (demo_world [] [])).1
  = Ok (true, None).
Proof.
  refine (proj1 (proj1 (@check_configuration_setting_errors store store_client
            (demo_replica 1) "color" "prod" (Some "v7") [] None
            (demo_world [] []) _ _ eq_refl)
          (HttpResponseError (Some 404)) eq_refl eq_refl) _).
  by exists "v7".
Defined.

Lemma close_stops_at_first_failure_witness :
  let m := {| _replica_clients := [demo_replica 1; demo_replica 0; demo_replica 2];
              _min_backoff := 30; _max_backoff := 600 |} in
  let w := demo_world [] [] in
  exists before failing after,
    _replica_clients m = before ++ failing :: after
    /\ trace (@close store store_client m w).2
       = trace w ++ map (fun c => EvClose (_client c) None) before
           ++ [EvClose (_client failing) (Some (OtherError "connection reset"))].
Proof.
  intros m w.
  exact (@close_stops_at_first_failure store store_client m w
           (Raise (OtherError "connection reset"))
           (@close store store_client m w).2 eq_refl).
Defined.

(** C8 as stated fails: the first endpoint's client cannot be closed, the
    error leaves [close] at once, and the second endpoint's client is never
    closed. *)
Lemma close_aborts_on_first_failure :
  let m := {| _replica_clients := [demo_replica 0; demo_replica 1];
              _min_backoff := 30; _max_backoff := 600 |} in
  let run := @close store store_client m (demo_world [] []) in
  run.1 = Raise (OtherError "connection reset")
  /\ forall o, EvClose 1%nat o ∉ trace run.2.
Proof.
  split; [reflexivity |].
  intros o Hin. vm_compute in Hin.
  apply list_elem_of_In in Hin. destruct Hin as [Heq | []]. discriminate.
Qed.

(** ** Traces and heaps of the refresh of plain settings *)

Lemma count_events_app (p : event -> bool) (evs1 evs2 : list event) :
  count_events p (evs1 ++ evs2)
  = (count_events p evs1 + count_events p evs2)%nat.
Proof. unfold count_events. by rewrite List.filter_app, length_app. Qed.

Lemma count_events_cons (p : event -> bool) (ev : event) (evs : list event) :
  count_events p (ev :: evs)
  = ((if p ev then 1 else 0) + count_events p evs)%nat.
Proof. unfold count_events. simpl. by destruct (p ev). Qed.

Lemma heap_get_new (h : list dict) (d : dict) :
  heap_get (h ++ [d]) (length h) = d.
Proof. unfold heap_get. by rewrite list_lookup_middle. Qed.

Lemma heap_get_app_l (h : list dict) (d : dict) (r : loc) :
  (r < length h)%nat -> heap_get (h ++ [d]) r = heap_get h r.
Proof. intros Hr. unfold heap_get. by rewrite lookup_app_l. Qed.

Lemma heap_get_out (h : list dict) (r : loc) :
  (length h <= r)%nat -> heap_get h r = [].
Proof. intros Hr. unfold heap_get. by rewrite lookup_ge_None_2. Qed.

Lemma heap_get_insert_eq (h : list dict) (r : loc) (d : dict) :
  (r < length h)%nat -> heap_get (<[r := d]> h) r = d.
Proof. intros Hr. unfold heap_get. by rewrite list_lookup_insert_eq. Qed.

Lemma heap_get_insert_ne (h : list dict) (r r' : loc) (d : dict) :
  r <> r' -> heap_get (<[r := d]> h) r' = heap_get h r'.
Proof. intros Hr. unfold heap_get. by rewrite list_lookup_insert_ne. Qed.

Lemma check_result_unchanged e o u :
  check_result e o = Ok (false, u) -> u = None.
Proof.
  destruct o as [[c |] | err]; simpl; [congruence | congruence |].
  destruct (is_404 err); [destruct e |]; congruence.
Qed.

Section RefreshFacts.

Context {S : Type} `{!AzureAppConfigurationClient S}.

Variable self : ReplicaClient.
Variable hd : headers.
Variable kw : kwargs.

Lemma no_change_detected_transport (items : dict) :
  forall w1 w2 : world S,
    transport w1 = transport w2 ->
    no_change_detected self items hd kw w1 ->
    no_change_detected self items hd kw w2.
Proof.
  induction items as [| [[k l] e] rest IH]; intros w1 w2 Ht; simpl; [done |].
  intros (u & w & Hc & Hrest).
  rewrite check_configuration_setting_unfold in Hc.
  rewrite check_configuration_setting_unfold. rewrite <- Ht.
  destruct (client_get_configuration_setting _ _ _ _ _ _ _) as [o s'].
  injection Hc as Hres <-. rewrite Hres.
  eexists _, _. split; [reflexivity |].
  eapply IH; [| exact Hrest]. reflexivity.
Qed.

(** The checking loop adds only single-entry fetches to the trace, writes
    to the copy of the watched map alone, and, when no pair is detected as
    changed, writes nothing and leaves [need_refresh] as it was. *)
Lemma check_loop_run (copy : loc) (items : dict) :
  forall (need_refresh : bool) (w : world S) r w',
    for_each items need_refresh (check_sentinel self copy hd kw) w = (r, w') ->
    (exists evs, trace w' = trace w ++ evs /\ count_events is_reload evs = 0%nat)
    /\ length (heap w') = length (heap w)
    /\ (forall x, x <> copy -> heap_get (heap w') x = heap_get (heap w) x)
    /\ (no_change_detected self items hd kw w ->
        r = Ok need_refresh /\ heap w' = heap w).
Proof.
  induction items as [| [[k l] e] rest IH]; intros need_refresh w r w' Hrun.
  - injection Hrun as <- <-. split; [| split; [| split]]; try done.
    exists []. by rewrite app_nil_r.
  - rewrite for_each_cons, bind_run in Hrun. unfold check_sentinel in Hrun.
    rewrite bind_run, check_configuration_setting_unfold in Hrun.
    destruct (client_get_configuration_setting (_client self) k l e hd kw
                (transport w)) as [o s'] eqn:Hget.
    destruct (check_result e o) as [[changed [u |]] | err] eqn:Hres.
    + (* a replacement entry: the copy is updated *)
      rewrite bind_run in Hrun. unfold setitem in Hrun.
      rewrite bind_run in Hrun. simpl in Hrun.
      apply IH in Hrun as ((evs & Htr & Hcnt) & Hlen & Hframe & _).
      simpl in Htr, Hlen, Hframe. split; [| split; [| split]].
      * exists (EvGet (_client self) k l e o :: evs).
        rewrite Htr, <- app_assoc. split; [done |].
        by rewrite count_events_cons, Hcnt.
      * by rewrite Hlen, length_insert.
      * intros x Hx. rewrite Hframe by done. by apply heap_get_insert_ne.
      * intros (u' & w1 & Hc & _).
        rewrite check_configuration_setting_unfold, Hget, Hres in Hc.
        injection Hc as -> _ _.
        apply check_result_unchanged in Hres. discriminate.
    + (* no replacement entry *)
      simpl in Hrun.
      pose proof Hrun as Hrun'.
      apply IH in Hrun as ((evs & Htr & Hcnt) & Hlen & Hframe & Hno).
      simpl in Htr, Hlen, Hframe. split; [| split; [| split]].
      * exists (EvGet (_client self) k l e o :: evs).
        rewrite Htr, <- app_assoc. split; [done |].
        by rewrite count_events_cons, Hcnt.
      * exact Hlen.
      * exact Hframe.
      * intros (u' & w1 & Hc & Hrest).
        rewrite check_configuration_setting_unfold, Hget, Hres in Hc.
        injection Hc as -> _ <-. apply Hno in Hrest. exact Hrest.
    + (* the check raises *)
      injection Hrun as <- <-. simpl. split; [| split; [| split]]; try done.
      * exists [EvGet (_client self) k l e o]. by split.
      * intros (u' & w1 & Hc & _).
        rewrite check_configuration_setting_unfold, Hget, Hres in Hc.
        discriminate.
Qed.

End RefreshFacts.

Lemma heap_get_copy (h : list dict) (r : loc) :
  heap_get (h ++ [heap_get h r]) r = heap_get h r.
Proof.
  destruct (decide (r < length h)%nat) as [Hlt | Hge].
  - by apply heap_get_app_l.
  - rewrite (heap_get_out h r) by lia.
    destruct (decide (r = length h)) as [-> | Hne].
    + apply heap_get_new.
    + apply heap_get_out. rewrite length_app. simpl. lia.
Qed.

Lemma dict_contains_live (k : skey) (h : list dict) (r : loc) :
  dict_contains k (heap_get h r) = true -> (r < length h)%nat.
Proof.
  unfold heap_get. destruct (h !! r) as [d |] eqn:Hr; simpl.
  - intros _. by eapply lookup_lt_Some.
  - discriminate.
Qed.

Lemma sentinel_step_get (r : loc) (h : list dict) (config : ConfigurationSetting) :
  heap_get (sentinel_step r r h config) r
  = refresh_sentinel (heap_get h r) config.
Proof.
  unfold sentinel_step, refresh_sentinel.
  destruct (dict_contains _ _) eqn:Hc; [| done].
  apply heap_get_insert_eq. by eapply dict_contains_live.
Qed.

Lemma sentinel_steps_get (r : loc) (configs : list ConfigurationSetting) :
  forall h,
    heap_get (foldl (sentinel_step r r) h configs) r
    = foldl refresh_sentinel (heap_get h r) configs.
Proof.
  induction configs as [| c rest IH]; intros h; simpl; [done |].
  by rewrite IH, sentinel_step_get.
Qed.

Section LoadFacts.

Context {S : Type} `{!AzureAppConfigurationClient S}.

Variable self : ReplicaClient.

Lemma world_eta (w : world S) : World (transport w) (heap w) (trace w) = w.
Proof. by destruct w. Qed.

(** The inner loop of a full load never raises: it appends every listed
    entry and refreshes the sentinels step by step. *)
Lemma load_setting_loop (refresh_on sentinel_keys : loc)
    (items : list ConfigurationSetting) :
  forall acc (w : world S),
    for_each items acc (load_setting refresh_on sentinel_keys) w
    = (Ok (acc ++ items),
       World (transport w)
             (foldl (sentinel_step refresh_on sentinel_keys) (heap w) items)
             (trace w)).
Proof.
  induction items as [| c rest IH]; intros acc w.
  - simpl. unfold ret. by rewrite app_nil_r, world_eta.
  - rewrite for_each_cons, bind_run. unfold load_setting at 1.
    rewrite bind_run. unfold read_dict at 1. simpl foldl.
    unfold sentinel_step at 2.
    destruct (dict_contains (key c, label c) (heap_get (heap w) refresh_on)).
    + unfold setitem. rewrite !bind_run. simpl.
      rewrite IH. simpl. by rewrite <- app_assoc.
    + simpl. rewrite IH. by rewrite <- app_assoc.
Qed.

Lemma load_select_loop (refresh_on sentinel_keys : loc)
    (selects : list SettingSelector) :
  forall acc (w : world S) r w',
    for_each selects acc (load_select self refresh_on sentinel_keys) w = (r, w') ->
    (exists evs, trace w' = trace w ++ evs /\ count_events is_reload evs = 0%nat)
    /\ (forall cs, r = Ok cs ->
          exists ys, cs = acc ++ ys
            /\ heap w' = foldl (sentinel_step refresh_on sentinel_keys) (heap w) ys).
Proof.
  induction selects as [| sel rest IH]; intros acc w r w' Hrun.
  - injection Hrun as <- <-. split.
    + exists []. by rewrite app_nil_r.
    + intros cs [= <-]. exists []. by rewrite app_nil_r.
  - rewrite for_each_cons, bind_run in Hrun. unfold load_select at 1 in Hrun.
    rewrite bind_run in Hrun. unfold call_list at 1 in Hrun.
    destruct (client_list_configuration_settings (_client self) (key_filter sel)
                (label_filter sel) (transport w)) as [[items err] s1].
    unfold for_paged in Hrun. rewrite bind_run, load_setting_loop in Hrun.
    simpl in Hrun. destruct err as [e |].
    + injection Hrun as <- <-. simpl. split; [| discriminate].
      eexists [_]. by split.
    + apply IH in Hrun as ((evs & Htr & Hcnt) & Hok). simpl in Htr, Hok. split.
      * eexists (_ :: evs). rewrite Htr, <- app_assoc. split; [done |].
        by rewrite count_events_cons, Hcnt.
      * intros cs Hcs. destruct (Hok cs Hcs) as (ys & -> & ->).
        exists (items ++ ys). by rewrite app_assoc, foldl_app.
Qed.

(** A full load enters [load_configuration_settings] once, returns the
    listed entries, and leaves the sentinel refresh in the dictionary it
    hands back: the [sentinel_keys] keyword when given, else [refresh_on]
    itself. *)
Lemma load_configuration_settings_run (selects : list SettingSelector)
    (refresh_on : loc) (kw : kwargs) (w : world S) r w' :
  load_configuration_settings self selects refresh_on kw w = (r, w') ->
  (exists evs, trace w' = trace w ++ EvLoadConfigurationSettings :: evs
     /\ count_events is_reload evs = 0%nat)
  /\ (forall cs sk, r = Ok (cs, sk) ->
        sk = default refresh_on kw
        /\ heap w' = foldl (sentinel_step refresh_on sk) (heap w) cs).
Proof.
  unfold load_configuration_settings. rewrite bind_run. unfold log at 1.
  rewrite bind_run. intros Hrun.
  match type of Hrun with
  | context [for_each ?xs ?acc ?body ?w0] =>
      destruct (for_each xs acc body w0) as [[cs | e] w1] eqn:Hloop
  end;
    apply load_select_loop in Hloop as ((evs & Htr & Hcnt) & Hok);
    simpl in Htr, Hok; injection Hrun as <- <-.
  - split.
    + exists evs. rewrite Htr, <- app_assoc. by split.
    + intros cs' sk [= <- <-]. split; [done |].
      by destruct (Hok cs eq_refl) as (ys & -> & ->).
  - split; [| discriminate].
    exists evs. rewrite Htr, <- app_assoc. by split.
Qed.

Variable selects : list SettingSelector.
Variable hd : headers.

(** The shape of a run of [refresh_configuration_settings]: the copy of the
    watched map is made, the pairs are checked against it, and the outcome
    of the checks decides between one full load and none. *)
Lemma refresh_configuration_settings_run (refresh_on : loc) (kw : kwargs)
    (w : world S) r w' :
  refresh_configuration_settings self selects refresh_on hd kw w = (r, w') ->
  let watched := heap_get (heap w) refresh_on in
  let w1 := World (transport w) (heap w ++ [watched]) (trace w) in
  exists rn w2,
    check_sentinels self (length (heap w)) watched hd kw w1 = (rn, w2)
    /\ match rn with
       | Ok true =>
           exists rl,
             load_configuration_settings self selects refresh_on kw w2 = (rl, w')
             /\ r = match rl with
                    | Ok (cs, sk) => Ok (true, sk, cs)
                    | Raise e => Raise e
                    end
       | Ok false => r = Ok (false, refresh_on, []) /\ w' = w2
       | Raise e => r = Raise e /\ w' = w2
       end.
Proof.
  intros Hrun watched w1. subst watched w1.
  unfold refresh_configuration_settings in Hrun.
  rewrite bind_run in Hrun. unfold read_dict at 1 in Hrun.
  rewrite bind_run in Hrun. unfold new_dict at 1 in Hrun.
  rewrite bind_run in Hrun. unfold read_dict at 1 in Hrun. simpl heap in Hrun.
  rewrite heap_get_new, bind_run in Hrun.
  destruct (check_sentinels _ _ _ _ _ _) as [[[|] | e] w2] eqn:Hchk.
  - exists (Ok true), w2. split; [done |].
    rewrite bind_run in Hrun.
    destruct (load_configuration_settings _ _ _ _ _) as [[[cs sk] | e] w3] eqn:Hl.
    + injection Hrun as <- <-. by exists (Ok (cs, sk)).
    + injection Hrun as <- <-. by exists (Raise e).
  - injection Hrun as <- <-. by exists (Ok false), w2.
  - injection Hrun as <- <-. by exists (Raise e), w2.
Qed.

(** C6: a call of [refresh_configuration_settings] enters
    [load_configuration_settings] at most once, however many watched pairs
    are detected as changed; on the changed path the sentinel map and the
    entries it returns are those of that one load; when no watched pair is
    detected as changed it returns [(false, refresh_on, [])] with the input
    map unmodified and enters no load. *)
Theorem refresh_configuration_settings_single_reload (refresh_on : loc)
    (kw : kwargs) (w : world S)
    (r : result (bool * loc * list ConfigurationSetting)) (w' : world S) :
  refresh_configuration_settings self selects refresh_on hd kw w = (r, w') ->
  exists evs,
    trace w' = trace w ++ evs
    /\ (count_events is_reload evs <= 1)%nat
    /\ (forall sk cs, r = Ok (true, sk, cs) ->
          count_events is_reload evs = 1%nat
          /\ exists w1 evs1,
               trace w1 = trace w ++ evs1
               /\ count_events is_reload evs1 = 0%nat
               /\ load_configuration_settings self selects refresh_on kw w1
                  = (Ok (cs, sk), w'))
    /\ (no_change_detected self (heap_get (heap w) refresh_on) hd kw w ->
          r = Ok (false, refresh_on, [])
          /\ count_events is_reload evs = 0%nat
          /\ heap_get (heap w') refresh_on = heap_get (heap w) refresh_on).
Proof.
  intros Hrun. apply refresh_configuration_settings_run in Hrun.
  destruct Hrun as (rn & w2 & Hchk & Hrest). unfold check_sentinels in Hchk.
  apply check_loop_run in Hchk as ((evs1 & Htr1 & Hcnt1) & _ & _ & Hno).
  simpl in Htr1.
  assert (Hno' : no_change_detected self (heap_get (heap w) refresh_on) hd kw w ->
                 rn = Ok false /\ heap w2 = heap w ++ [heap_get (heap w) refresh_on]).
  { intros Hnc. apply Hno.
    eapply no_change_detected_transport; [| exact Hnc]. reflexivity. }
  clear Hno. destruct rn as [[|] | e].
  - destruct Hrest as (rl & Hload & ->).
    pose proof Hload as Hload'.
    apply load_configuration_settings_run in Hload' as ((evs2 & Htr2 & Hcnt2) & _).
    exists (evs1 ++ EvLoadConfigurationSettings :: evs2).
    assert (Hone : count_events is_reload
                     (evs1 ++ EvLoadConfigurationSettings :: evs2) = 1%nat)
      by (rewrite count_events_app, count_events_cons, Hcnt1, Hcnt2; done).
    split; [by rewrite Htr2, Htr1, <- app_assoc |].
    split; [lia |]. split.
    + intros sk cs Hr. split; [exact Hone |].
      exists w2, evs1. split; [done |]. split; [done |].
      destruct rl as [[cs' sk'] | e]; [| discriminate].
      by injection Hr as <- <-.
    + intros Hnc. destruct (Hno' Hnc) as [[=] _].
  - destruct Hrest as [-> ->]. exists evs1.
    split; [done |]. split; [lia |]. split; [discriminate |].
    intros Hnc. destruct (Hno' Hnc) as [_ Hheap].
    split; [done |]. split; [done |]. rewrite Hheap. apply heap_get_copy.
  - destruct Hrest as [-> ->]. exists evs1.
    split; [done |]. split; [lia |]. split; [discriminate |].
    intros Hnc. destruct (Hno' Hnc) as [[=] _].
Qed.

(** Without a [sentinel_keys] keyword a full load returns [refresh_on]
    itself, refreshed in place. *)
Lemma load_configuration_settings_in_place (refresh_on : loc) (w : world S)
    cs sk w' :
  load_configuration_settings self selects refresh_on None w = (Ok (cs, sk), w') ->
  sk = refresh_on
  /\ heap_get (heap w') refresh_on
     = foldl refresh_sentinel (heap_get (heap w) refresh_on) cs.
Proof.
  intros Hload. apply load_configuration_settings_run in Hload as [_ Hok].
  destruct (Hok cs sk eq_refl) as [-> ->]. simpl. split; [done |].
  apply sentinel_steps_get.
Qed.

(** C9: on the change-detected path, and without a [sentinel_keys] keyword,
    the sentinel map that [refresh_configuration_settings] returns is the
    caller's own [refresh_on] object, not a new one, and the full load has
    written the reloaded entries' etags into it in place. *)
Theorem refresh_configuration_settings_returns_input_map (refresh_on : loc)
    (w : world S) (sk : loc) (cs : list ConfigurationSetting) (w' : world S) :
  refresh_configuration_settings self selects refresh_on hd None w
  = (Ok (true, sk, cs), w') ->
  sk = refresh_on
  /\ (refresh_on < length (heap w))%nat
  /\ heap_get (heap w') refresh_on
     = foldl refresh_sentinel (heap_get (heap w) refresh_on) cs.
Proof.
  intros Hrun. apply refresh_configuration_settings_run in Hrun.
  destruct Hrun as (rn & w2 & Hchk & Hrest).
  assert (Hlive : (refresh_on < length (heap w))%nat).
  { destruct (decide (refresh_on < length (heap w))%nat) as [| Hge]; [done |].
    rewrite heap_get_out in Hchk by lia. injection Hchk as <- <-.
    by destruct Hrest as [[=] _]. }
  unfold check_sentinels in Hchk.
  apply check_loop_run in Hchk as (_ & _ & Hframe & _). simpl in Hframe.
  destruct rn as [[|] | e]; [| by destruct Hrest as [[=] _]..].
  destruct Hrest as (rl & Hload & Hr).
  destruct rl as [[cs' sk'] | e]; [| discriminate].
  injection Hr as <- <-.
  apply load_configuration_settings_in_place in Hload as [-> Hheap].
  split; [done |]. split; [done |].
  rewrite Hheap, Hframe by lia. by rewrite heap_get_app_l.
Qed.

End LoadFacts.

(** ** Feature flags *)

Section FlagFacts.

Context {S : Type} `{!AzureAppConfigurationClient S}.
Context {J : Type} `{!JsonDecoder J}.

Variable FEATURE_FLAG_PREFIX : string.
Variable self : ReplicaClient.

(** The inner loop of [load_feature_flags] makes no transport call; it ends
    normally only if every entry decodes, and otherwise raises the decoding
    error of the first entry that does not. *)
Lemma load_flag_loop (enabled : bool) (sentinels : loc)
    (items : list ConfigurationSetting) :
  forall (acc : list J) (w : world S) r w',
    for_each items acc (load_flag enabled sentinels) w = (r, w') ->
    trace w' = trace w
    /\ transport w' = transport w
    /\ match r with
       | Ok _ => Forall (fun c => is_Some (json_loads (J := J) (value c))) items
       | Raise e =>
           exists c, c ∈ items /\ json_loads (J := J) (value c) = None
             /\ e = JSONDecodeError (value c)
       end.
Proof.
  induction items as [| c rest IH]; intros acc w r w' Hrun.
  - by injection Hrun as <- <-.
  - rewrite for_each_cons, bind_run in Hrun. unfold load_flag at 1 in Hrun.
    destruct (json_loads (value c)) as [flag |] eqn:Hjson.
    + assert (Hstep : exists w1 : world S,
                 trace w1 = trace w /\ transport w1 = transport w
                 /\ for_each rest (acc ++ [flag]) (load_flag enabled sentinels) w1
                    = (r, w')).
      { destruct enabled.
        - unfold setitem in Hrun. rewrite !bind_run in Hrun. simpl in Hrun.
          eexists. split; [| split; [| exact Hrun]]; done.
        - simpl in Hrun. by exists w. }
      destruct Hstep as (w1 & Htr & Hts & Hrest).
      apply IH in Hrest as (Htr' & Hts' & Hr).
      split; [congruence |]. split; [congruence |].
      destruct r as [a | e].
      * constructor; [by rewrite Hjson | done].
      * destruct Hr as (c' & Hin & Hbad & ->).
        exists c'. split; [by apply elem_of_cons; right | done].
    + injection Hrun as <- <-. split; [done |]. split; [done |].
      exists c. split; [by apply elem_of_cons; left | done].
Qed.

Lemma load_flag_select_loop (enabled : bool) (sentinels : loc)
    (selectors : list SettingSelector) :
  forall (acc : list J) (w : world S) r w',
    for_each selectors acc
      (load_flag_select FEATURE_FLAG_PREFIX self enabled sentinels) w = (r, w') ->
    exists evs,
      trace w' = trace w ++ evs
      /\ (lists_invalid_json (J := J) evs -> raises_json_error (J := J) r).
Proof.
  induction selectors as [| sel rest IH]; intros acc w r w' Hrun.
  - injection Hrun as <- <-. exists []. rewrite app_nil_r. split; [done |].
    intros (h & kf & lf & p & c & Hin & _). by apply elem_of_nil in Hin.
  - rewrite for_each_cons, bind_run in Hrun. unfold load_flag_select at 1 in Hrun.
    rewrite bind_run in Hrun. unfold call_list at 1 in Hrun.
    destruct (client_list_configuration_settings _ _ _ _) as [[items err] s1].
    unfold for_paged in Hrun. rewrite bind_run in Hrun. simpl fst in Hrun.
    match type of Hrun with
    | context [for_each items ?a ?body ?w0] =>
        destruct (for_each items a body w0) as [[acc' | e] w1] eqn:Hinner
    end; apply load_flag_loop in Hinner as (Htr1 & _ & Hitems); simpl in Htr1.
    + (* every entry of this listing decodes *)
      assert (Hgood : forall h kf lf p c,
                EvList h kf lf p
                = EvList (_client self) (FEATURE_FLAG_PREFIX +:+ key_filter sel)
                         (label_filter sel) (items, err) ->
                c ∈ p.1 -> json_loads (J := J) (value c) = None -> False).
      { intros h kf lf p c [= _ _ _ ->] Hc Hbad. simpl in Hc.
        rewrite Forall_forall in Hitems. apply Hitems in Hc.
        rewrite Hbad in Hc. by destruct Hc. }
      simpl snd in Hrun. destruct err as [e |].
      * injection Hrun as <- <-. eexists [_]. rewrite Htr1. split; [done |].
        intros (h & kf & lf & p & c & Hin & Hc & Hbad).
        apply list_elem_of_singleton in Hin. by destruct (Hgood _ _ _ _ _ Hin Hc Hbad).
      * apply IH in Hrun as (evs & Htr & Himp).
        eexists (_ :: evs). rewrite Htr, Htr1, <- app_assoc. split; [done |].
        intros (h & kf & lf & p & c & Hin & Hc & Hbad).
        apply elem_of_cons in Hin as [Hin | Hin].
        -- by destruct (Hgood _ _ _ _ _ Hin Hc Hbad).
        -- apply Himp. by exists h, kf, lf, p, c.
    + (* an entry of this listing does not decode *)
      injection Hrun as <- <-. eexists [_]. rewrite Htr1. split; [done |].
      intros _. destruct Hitems as (c & _ & Hbad & ->). by exists c.
Qed.

Lemma load_feature_flags_run (selectors : list SettingSelector)
    (enabled : bool) (kw : kwargs) (w : world S) r w' :
  load_feature_flags FEATURE_FLAG_PREFIX self selectors enabled kw w = (r, w') ->
  exists evs,
    trace w' = trace w ++ EvLoadFeatureFlags :: evs
    /\ (lists_invalid_json (J := J) evs -> raises_json_error (J := J) r).
Proof.
  unfold load_feature_flags. rewrite bind_run. unfold log at 1.
  rewrite bind_run. unfold new_dict at 1. rewrite bind_run. intros Hrun.
  match type of Hrun with
  | context [for_each ?xs ?acc ?body ?w0] =>
      destruct (for_each xs acc body w0) as [[flags | e] w1] eqn:Hloop
  end;
    apply load_flag_select_loop in Hloop as (evs & Htr & Himp);
    simpl in Htr; injection Hrun as <- <-; exists evs;
    (split; [by rewrite Htr, <- app_assoc |]).
  - intros Hbad. destruct (Himp Hbad) as (c & [=] & _).
  - intros Hbad. destruct (Himp Hbad) as (c & [= ->] & Hc). by exists c.
Qed.

Lemma lists_invalid_json_cons (ev : event) (evs : list event) :
  (forall h kf lf p, ev <> EvList h kf lf p) ->
  lists_invalid_json (J := J) (ev :: evs) -> lists_invalid_json (J := J) evs.
Proof.
  intros Hev (h & kf & lf & p & c & Hin & Hc & Hbad).
  apply elem_of_cons in Hin as [Heq | Hin].
  - by destruct (Hev h kf lf p).
  - by exists h, kf, lf, p, c.
Qed.

(** C10: when a listing made by [load_feature_flags] hands back an entry
    whose value is not valid JSON, [load_feature_flags] raises the decoding
    error and returns nothing, so the flags decoded before are lost; the
    same holds of [refresh_feature_flags], whose reload is that load. *)
Theorem load_feature_flags_invalid_json :
  (forall selectors enabled kw (w : world S) r w' evs,
     load_feature_flags FEATURE_FLAG_PREFIX self selectors enabled kw w = (r, w') ->
     trace w' = trace w ++ evs ->
     lists_invalid_json (J := J) evs ->
     raises_json_error (J := J) r)
  /\ (forall refresh_on selectors hd kw (w : world S) r w' evs,
        refresh_feature_flags FEATURE_FLAG_PREFIX self refresh_on selectors hd kw w
        = (r, w') ->
        trace w' = trace w ++ evs ->
        lists_invalid_json (J := J) evs ->
        raises_json_error (J := J) r).
Proof.
  split.
  - intros selectors enabled kw w r w' evs Hrun Htr Hbad.
    apply load_feature_flags_run in Hrun as (evs' & Htr' & Himp).
    rewrite Htr' in Htr. apply app_inv_head in Htr. subst evs.
    apply Himp. by apply lists_invalid_json_cons in Hbad.
  - intros refresh_on selectors hd kw w r w' evs Hrun Htr Hbad.
    unfold refresh_feature_flags in Hrun.
    rewrite bind_run in Hrun. unfold read_dict at 1 in Hrun.
    rewrite bind_run in Hrun. unfold new_dict at 1 in Hrun.
    rewrite bind_run in Hrun. unfold read_dict at 1 in Hrun.
    simpl heap in Hrun. rewrite heap_get_new in Hrun.
    destruct (heap_get (heap w) refresh_on) as [| [[k l] e] rest].
    + injection Hrun as <- <-. simpl in Htr.
      rewrite <- (app_nil_r (trace w)) in Htr at 1.
      apply app_inv_head in Htr. subst evs.
      destruct Hbad as (h & kf & lf & p & c & Hin & _).
      by apply elem_of_nil in Hin.
    + simpl in Hrun. rewrite bind_run in Hrun.
      rewrite check_configuration_setting_unfold in Hrun.
      destruct (client_get_configuration_setting _ _ _ _ _ _ _) as [o s1].
      simpl in Hrun. destruct (check_result e o) as [checked | err].
      * rewrite bind_run in Hrun.
        match type of Hrun with
        | context [load_feature_flags ?a ?b ?c ?d ?f ?w0] =>
            destruct (load_feature_flags a b c d f w0) as [rl w2] eqn:Hload
        end.
        apply load_feature_flags_run in Hload as (evs' & Htr' & Himp).
        simpl in Htr'.
        assert (Hr : raises_json_error (J := J) rl).
        { apply Himp.
          assert (Hw : trace w' = trace w2)
            by (destruct rl as [[? ?] |]; by injection Hrun as _ <-).
          rewrite Hw, Htr', <- app_assoc in Htr.
          apply app_inv_head in Htr. subst evs. simpl in Hbad.
          apply lists_invalid_json_cons in Hbad; [| done].
          by apply lists_invalid_json_cons in Hbad. }
        destruct Hr as (c & -> & Hc). injection Hrun as <- _. by exists c.
      * injection Hrun as <- <-. simpl in Htr.
        apply app_inv_head in Htr. subst evs.
        apply lists_invalid_json_cons in Hbad; [| done].
        destruct Hbad as (h & kf & lf & p & c & Hin & _).
        by apply elem_of_nil in Hin.
Qed.

End FlagFacts.

(** ** The model at concrete inputs *)

Lemma refresh_configuration_settings_single_reload_witness :
  let selects := [{| key_filter := ""; label_filter := "prod" |}] in
  let same := demo_world [demo_setting; demo_flag]
                [[(("color", "prod"), Some "v7")]] in
  let stale := demo_world [demo_setting; demo_flag]
                 [[(("color", "prod"), Some "v6")]] in
  let run w := @refresh_configuration_settings store store_client
                 (demo_replica 1) selects 0%nat [] None w in
  ((run same).1 = Ok (false, 0%nat, [])
   /\ count_events is_reload (trace (run same).2) = 0%nat
   /\ heap_get (heap (run same).2) 0%nat = heap_get (heap same) 0%nat)
  /\ count_events is_reload (trace (run stale).2) = 1%nat.
Proof.
  intros selects same stale run. split.
  - destruct (@refresh_configuration_settings_single_reload store store_client
                (demo_replica 1) selects [] 0%nat None same
                (run same).1 (run same).2 eq_refl)
      as (evs & Htr & _ & _ & Hno).
    destruct Hno as (Hr & Hcnt & Hheap).
    { simpl. eexists _, _. split; [reflexivity | exact I]. }
    simpl in Htr. subst evs. done.
  - destruct (@refresh_configuration_settings_single_reload store store_client
                (demo_replica 1) selects [] 0%nat None stale
                (run stale).1 (run stale).2 eq_refl)
      as (evs & Htr & _ & Hchanged & _).
    destruct (Hchanged 0%nat [demo_setting; demo_flag] eq_refl) as [Hone _].
    simpl in Htr. subst evs. exact Hone.
Defined.

Lemma refresh_configuration_settings_returns_input_map_witness :
  let w := demo_world [demo_setting; demo_flag]
             [[(("color", "prod"), Some "v6")]] in
  let run := @refresh_configuration_settings store store_client (demo_replica 1)
               [{| key_filter := ""; label_filter := "prod" |}] 0%nat [] None w in
  heap_get (heap run.2) 0%nat = [(("color", "prod"), Some "v7")].
Proof.
  intros w run.
  destruct (@refresh_configuration_settings_returns_input_map store store_client
              (demo_replica 1) [{| key_filter := ""; label_filter := "prod" |}] []
              0%nat w 0%nat [demo_setting; demo_flag] run.2 eq_refl)
    as (_ & _ & Hheap).
  exact Hheap.
Defined.

Lemma load_feature_flags_invalid_json_witness :
  let w := demo_world [demo_flag; demo_broken_flag] [] in
  let run := @load_feature_flags store store_client string braces_decoder
               demo_prefix (demo_replica 1)
               [{| key_filter := ""; label_filter := "prod" |}] true None w in
  @raises_json_error string braces_decoder _ run.1.
Proof.
  intros w run.
  apply (proj1 (@load_feature_flags_invalid_json store store_client string
                  braces_decoder demo_prefix (demo_replica 1))
           [{| key_filter := ""; label_filter := "prod" |}] true None w
           run.1 run.2 (trace run.2) eq_refl eq_refl).
  exists 1%nat, (demo_prefix +:+ ""), "prod",
    ([demo_flag; demo_broken_flag], None), demo_broken_flag.
  split; [| split; [| reflexivity]].
  - apply list_elem_of_In. simpl. right. left. reflexivity.
  - apply list_elem_of_In. simpl. right. left. reflexivity.
Defined.

(** With a watched pair to look at, [refresh_feature_flags] goes on to the
    full load as soon as the first check returns, whatever it reports. *)
Lemma refresh_feature_flags_first_pair {S : Type}
    `{!AzureAppConfigurationClient S} {J : Type} `{!JsonDecoder J}
    (FEATURE_FLAG_PREFIX : string) (self : ReplicaClient) (refresh_on : loc)
    (selectors : list SettingSelector) (hd : headers) (kw : kwargs)
    (w : world S) k l e rest checked w1 :
  heap_get (heap w) refresh_on = ((k, l), e) :: rest ->
  _check_configuration_setting self k l e hd kw
    (World (transport w) (heap w ++ [heap_get (heap w) refresh_on]) (trace w))
  = (Ok checked, w1) ->
  refresh_feature_flags (J := J) FEATURE_FLAG_PREFIX self refresh_on selectors
    hd kw w
  = match load_feature_flags (J := J) FEATURE_FLAG_PREFIX self selectors true kw w1 with
    | (Ok (flags, sentinels), w2) => (Ok (true, Some sentinels, Some flags), w2)
    | (Raise err, w2) => (Raise err, w2)
    end.
Proof.
  intros Hitems Hcheck. unfold refresh_feature_flags.
  rewrite bind_run. unfold read_dict at 1.
  rewrite bind_run. unfold new_dict at 1.
  rewrite bind_run. unfold read_dict at 1. simpl heap.
  rewrite heap_get_new. rewrite Hitems in *. simpl.
  rewrite bind_run, Hcheck. simpl. rewrite bind_run.
  by destruct (load_feature_flags _ _ _ _ _ _) as [[[flags sentinels] | err] w2].
Qed.

(** C1, at an input where the code departs from it: the one watched pair
    reports no change, and [refresh_feature_flags] still runs one full
    [load_feature_flags] and returns a changed result with the reloaded
    sentinels and flags. *)
Theorem refresh_feature_flags_reloads_without_change :
  let self := demo_replica 1 in
  let watched := [((".appconfig.featureflag/beta", "prod"), Some "v1")] in
  let w := demo_world [demo_flag] [watched] in
  let run := @refresh_feature_flags store store_client string braces_decoder
               demo_prefix self 0%nat
               [{| key_filter := ""; label_filter := "prod" |}] [] None w in
  heap_get (heap w) 0%nat = watched
  /\ @no_change_detected store store_client self watched [] None w
  /\ run.1 = Ok (true, Some 2%nat, Some ["{ }"])
  /\ count_events is_flag_reload (trace run.2) = 1%nat.
Proof.
  intros self watched w run. split; [reflexivity |]. split.
  - simpl. eexists _, _. split; [reflexivity | exact I].
  - split; reflexivity.
Qed.

(** C2, at an input where the code departs from it: a listing for a
    selector without the feature-flag prefix hands back a feature flag, and
    [load_configuration_settings] returns it among the plain settings. *)
Theorem load_configuration_settings_keeps_feature_flags :
  let w := demo_world [demo_setting; demo_flag] [[]] in
  let run := @load_configuration_settings store store_client (demo_replica 1)
               [{| key_filter := ""; label_filter := "prod" |}] 0%nat None w in
  run.1 = Ok ([demo_setting; demo_flag], 0%nat)
  /\ isinstance_FeatureFlag demo_flag = true
  /\ demo_flag ∈ [demo_setting; demo_flag].
Proof.
  intros w run. split; [reflexivity |]. split; [reflexivity |].
  apply list_elem_of_In. simpl. right. left. reflexivity.
Qed.

(** * Further properties of the manager *)

Section BackoffShape.

Variable self : ReplicaClientManager.

Lemma backoff_ceiling_closed (attempts : Z) :
  _min_backoff self < _max_backoff self -> 0 <= attempts ->
  backoff_ceiling self attempts
  = Z.min (max_ms self) (Z.max 1 (min_ms self) * 2 ^ Z.min attempts 63).
Proof.
  intros Hlt Ha. unfold backoff_ceiling, max_ms, min_ms.
  set (lo := _min_backoff self * 1000). set (hi := _max_backoff self * 1000).
  assert (Hp : 0 < 2 ^ Z.min attempts 63) by (apply Z.pow_pos_nonneg; lia).
  assert (Hpos : 0 < Z.max 1 lo * 2 ^ Z.min attempts 63) by nia.
  destruct ((_ >? hi) || (_ <=? 0)) eqn:Hc.
  - apply orb_true_iff in Hc as [Hc | Hc]; z_of_bool; lia.
  - z_of_bool. lia.
Qed.

(** X20: the duration has a closed form: the overflow guard of the source never
    fires, and the exponential ceiling is the smaller of the cap and the
    doubled floor. *)
Theorem calculate_backoff_closed_form (attempts : Z) (jitter : Q) :
  _min_backoff self < _max_backoff self -> 0 <= attempts ->
  _calculate_backoff self attempts jitter
  = Ok (inject_Z (min_ms self)
        + jitter * inject_Z (Z.min (max_ms self)
                                   (Z.max 1 (min_ms self) * 2 ^ Z.min attempts 63)
                             - min_ms self))%Q.
Proof.
  intros Hlt Ha. rewrite calculate_backoff_jittered by assumption.
  by rewrite backoff_ceiling_closed.
Qed.

(** X21: for one jitter draw, a later attempt never waits less. *)
Theorem calculate_backoff_attempts_mono (a b : Z) (jitter : Q) :
  0 <= a -> a <= b -> (0 <= jitter)%Q ->
  exists da db,
    _calculate_backoff self a jitter = Ok da
    /\ _calculate_backoff self b jitter = Ok db
    /\ (da <= db)%Q.
Proof.
  intros Ha Hab Hj.
  destruct (Z_le_gt_dec (_max_backoff self) (_min_backoff self)) as [Hdeg | Hlt].
  - eexists _, _. rewrite !calculate_backoff_degenerate by exact Hdeg.
    split; [done |]. split; [done |]. lra.
  - assert (Hlt' : _min_backoff self < _max_backoff self) by lia.
    eexists _, _. rewrite !calculate_backoff_jittered by lia.
    split; [done |]. split; [done |].
    pose proof (backoff_ceiling_mono self a b Hlt' ltac:(lia)) as Hmono.
    rewrite Zle_Qle in Hmono.
    unfold Z.sub. rewrite !inject_Z_plus, !inject_Z_opp.
    set (lo := inject_Z (_min_backoff self * 1000)) in *.
    set (x1 := inject_Z (backoff_ceiling self a)) in *.
    set (x2 := inject_Z (backoff_ceiling self b)) in *.
    assert (H : (jitter * (x1 + - lo) <= jitter * (x2 + - lo))%Q)
      by (rewrite !(Qmult_comm jitter); apply Qmult_le_compat_r; lra).
    lra.
Qed.

(** X22: the shift is capped: from the 63rd attempt on the duration no longer
    depends on the attempt count.  A negative attempt count makes the shift
    raise, unless the configuration is degenerate. *)
Theorem calculate_backoff_attempt_edges (attempts : Z) (jitter : Q) :
  (63 <= attempts ->
   _calculate_backoff self attempts jitter = _calculate_backoff self 63 jitter)
  /\ (attempts < 0 -> _min_backoff self < _max_backoff self ->
      _calculate_backoff self attempts jitter
      = Raise (ValueError "negative shift count"))
  /\ (attempts < 0 -> _max_backoff self <= _min_backoff self ->
      _calculate_backoff self attempts jitter = Ok (inject_Z (min_ms self))).
Proof.
  split; [| split].
  - intros Ha. unfold _calculate_backoff.
    by replace (Z.min attempts 63) with (Z.min 63 63) by lia.
  - intros Ha Hlt. unfold _calculate_backoff, py_lshift.
    destruct (Z.leb_spec (_max_backoff self) (_min_backoff self)); [lia |].
    destruct (Z.ltb_spec (Z.min attempts 63) 0); [done | lia].
  - intros _ Hdeg. by apply calculate_backoff_degenerate.
Qed.

Lemma backoff_outcome_ok (client : ReplicaClient) (jitter now : Q) :
  0 <= failed_attempts client ->
  (backoff self client jitter now).1 = Ok tt.
Proof.
  intros Ha. unfold backoff. simpl.
  destruct (Z_le_gt_dec (_max_backoff self) (_min_backoff self)) as [Hdeg | Hlt].
  - by rewrite calculate_backoff_degenerate.
  - by rewrite calculate_backoff_jittered by lia.
Qed.

Lemma backoff_window_bounds (client : ReplicaClient) (jitter now : Q) :
  0 <= failed_attempts client -> (0 <= jitter)%Q -> (jitter <= 1)%Q ->
  (now * 1000 + inject_Z (min_ms self)
   <= backoff_end_time (backoff self client jitter now).2)%Q
  /\ (backoff_end_time (backoff self client jitter now).2
      <= now * 1000 + inject_Z (Z.max (min_ms self) (max_ms self)))%Q.
Proof.
  intros Ha Hj0 Hj1.
  destruct (Z_le_gt_dec (_max_backoff self) (_min_backoff self)) as [Hdeg | Hlt].
  - rewrite backoff_end_time_degenerate by exact Hdeg.
    unfold min_ms, max_ms.
    assert (Hm : _min_backoff self * 1000
                 <= Z.max (_min_backoff self * 1000) (_max_backoff self * 1000))
      by lia.
    rewrite Zle_Qle in Hm. split; lra.
  - assert (Hlt' : _min_backoff self < _max_backoff self) by lia.
    rewrite backoff_end_time_jittered by assumption.
    destruct (backoff_ceiling_bounds self (failed_attempts client + 1) Hlt'
                ltac:(lia)) as [Hlo Hhi].
    assert (Hm : _max_backoff self * 1000
                 <= Z.max (min_ms self) (max_ms self))
      by (unfold min_ms, max_ms; lia).
    rewrite Zle_Qle in Hlo, Hhi, Hm. unfold min_ms, max_ms in *.
    unfold Z.sub. rewrite inject_Z_plus, inject_Z_opp.
    set (lo := inject_Z (_min_backoff self * 1000)) in *.
    set (x := inject_Z (backoff_ceiling self (failed_attempts client + 1))) in *.
    assert (H0 : (0 <= jitter * (x + - lo))%Q)
      by (apply Qmult_le_0_compat; lra).
    assert (H1 : (jitter * (x + - lo) <= 1 * (x + - lo))%Q)
      by (apply Qmult_le_compat_r; lra).
    split; lra.
Qed.

(** X18: a [backoff] on a client whose failure count is not negative does not
    raise, and ends the window between the floor and the cap after the
    clock reading. *)
Theorem backoff_window (client : ReplicaClient) (jitter now : Q) :
  0 <= failed_attempts client -> (0 <= jitter)%Q -> (jitter <= 1)%Q ->
  let run := backoff self client jitter now in
  run.1 = Ok tt
  /\ (now * 1000 + inject_Z (min_ms self) <= backoff_end_time run.2)%Q
  /\ (backoff_end_time run.2
      <= now * 1000 + inject_Z (Z.max (min_ms self) (max_ms self)))%Q.
Proof.
  intros Ha Hj0 Hj1 run. subst run.
  split; [by apply backoff_outcome_ok |]. by apply backoff_window_bounds.
Qed.

(** X19: [backoff] only ever counts up: after the [i]-th of a run of calls the
    failure count has grown by [i], and the endpoint and its transport
    client are the ones the run started with. *)
Theorem backoff_run_counts (calls : list (Q * Q)) :
  forall (client : ReplicaClient) (i : nat) (c : ReplicaClient),
    backoff_run self client calls !! i = Some c ->
    failed_attempts c = failed_attempts client + Z.of_nat i + 1
    /\ endpoint c = endpoint client
    /\ _client c = _client client.
Proof.
  induction calls as [| [j t] rest IH]; intros client i c Hi; [done |].
  destruct i as [| i]; simpl in Hi.
  - injection Hi as <-. rewrite backoff_attempts. split; [lia |].
    unfold backoff. simpl. by destruct (_calculate_backoff _ _ _).
  - apply IH in Hi as (Hn & He & Hc). rewrite backoff_attempts in Hn.
    split; [lia |]. rewrite He, Hc.
    unfold backoff. simpl. by destruct (_calculate_backoff _ _ _).
Qed.

End BackoffShape.

Lemma calculate_backoff_closed_form_witness :
  let m := {| _replica_clients := []; _min_backoff := 30; _max_backoff := 600 |} in
  _calculate_backoff m 2 (1 # 2)
  = Ok (inject_Z 30000 + (1 # 2) * inject_Z (Z.min 600000 (30000 * 4) - 30000))%Q.
Proof.
  intros m.
  exact (calculate_backoff_closed_form m 2 (1 # 2) ltac:(reflexivity) ltac:(lia)).
Defined.

Lemma calculate_backoff_attempts_mono_witness :
  let m := {| _replica_clients := []; _min_backoff := 30; _max_backoff := 600 |} in
  exists da db,
    _calculate_backoff m 1 (1 # 2) = Ok da
    /\ _calculate_backoff m 4 (1 # 2) = Ok db /\ (da <= db)%Q.
Proof.
  intros m.
  exact (calculate_backoff_attempts_mono m 1 4 (1 # 2)
           ltac:(lia) ltac:(lia) ltac:(discriminate)).
Defined.

Lemma calculate_backoff_attempt_edges_witness :
  let m := {| _replica_clients := []; _min_backoff := 30; _max_backoff := 600 |} in
  _calculate_backoff m 200 (1 # 3) = _calculate_backoff m 63 (1 # 3)
  /\ _calculate_backoff m (-1) (1 # 3) = Raise (ValueError "negative shift count").
Proof.
  intros m. split.
  - exact (proj1 (calculate_backoff_attempt_edges m 200 (1 # 3)) ltac:(lia)).
  - exact (proj1 (proj2 (calculate_backoff_attempt_edges m (-1) (1 # 3)))
             ltac:(lia) ltac:(reflexivity)).
Defined.

Lemma backoff_window_witness :
  let m := {| _replica_clients := []; _min_backoff := 30; _max_backoff := 600 |} in
  let run := backoff m (demo_replica 1) (1 # 2) 100 in
  run.1 = Ok tt
  /\ (100 * 1000 + inject_Z 30000 <= backoff_end_time run.2)%Q
  /\ (backoff_end_time run.2 <= 100 * 1000 + inject_Z 600000)%Q.
Proof.
  intros m.
  exact (backoff_window m (demo_replica 1) (1 # 2) 100
           ltac:(simpl; lia) ltac:(discriminate) ltac:(discriminate)).
Defined.

Lemma backoff_run_counts_witness :
  let m := {| _replica_clients := []; _min_backoff := 30; _max_backoff := 600 |} in
  exists c,
    backoff_run m (demo_replica 1) [(1 # 2, 5); (1 # 3, 6)]%Q !! 1%nat = Some c
    /\ failed_attempts c = 2.
Proof.
  intros m. eexists. split; [reflexivity |].
  exact (proj1 (backoff_run_counts m [(1 # 2, 5); (1 # 3, 6)]%Q
                  (demo_replica 1) 1%nat _ eq_refl)).
Defined.

Section ActiveSet.

Variable self : ReplicaClientManager.

Lemma active_clients_loop_general (time_time : nat -> Q) clients :
  forall i active_clients,
  exists kept,
    active_clients_loop time_time i clients active_clients
    = active_clients ++ kept
    /\ kept `sublist_of` clients
    /\ (forall j c, clients !! j = Some c ->
          (backoff_end_time c <= time_time (i + j)%nat * 1000)%Q -> c ∈ kept)
    /\ (forall c, c ∈ kept ->
          exists j, clients !! j = Some c
            /\ (backoff_end_time c <= time_time (i + j)%nat * 1000)%Q).
Proof.
  induction clients as [| c rest IH]; intros i acc; simpl.
  - exists []. rewrite app_nil_r. split; [done |]. split; [done |].
    split; [done |]. intros c Hc. by apply elem_of_nil in Hc.
  - destruct (IH (Datatypes.S i)
                (if Qle_bool (backoff_end_time c) (time_time i * 1000)
                 then acc ++ [c] else acc)) as (kept & -> & Hsub & Hin & Hout).
    destruct (Qle_bool (backoff_end_time c) (time_time i * 1000)) eqn:Hb.
    + exists (c :: kept). split; [by rewrite <- app_assoc |].
      split; [by apply sublist_skip |]. split.
      * intros [| j] c' Hj Hle; simpl in Hj.
        -- injection Hj as <-. by apply elem_of_cons; left.
        -- apply elem_of_cons; right. apply (Hin j); [done |].
           by replace (Datatypes.S i + j)%nat with (i + Datatypes.S j)%nat by lia.
      * intros c' Hc'. apply elem_of_cons in Hc' as [-> | Hc'].
        -- exists 0%nat. split; [done |].
           rewrite Nat.add_0_r. by apply Qle_bool_iff.
        -- destruct (Hout c' Hc') as (j & Hj & Hle). exists (Datatypes.S j).
           split; [done |].
           by replace (i + Datatypes.S j)%nat with (Datatypes.S i + j)%nat by lia.
    + exists kept. split; [done |]. split; [by apply sublist_cons |]. split.
      * intros [| j] c' Hj Hle; simpl in Hj.
        -- injection Hj as <-. rewrite Nat.add_0_r in Hle.
           apply Qle_bool_iff in Hle. congruence.
        -- apply (Hin j); [done |].
           by replace (Datatypes.S i + j)%nat with (i + Datatypes.S j)%nat by lia.
      * intros c' Hc'. destruct (Hout c' Hc') as (j & Hj & Hle).
        exists (Datatypes.S j). split; [done |].
        by replace (i + Datatypes.S j)%nat with (Datatypes.S i + j)%nat by lia.
Qed.

(** X15: the clock may advance while [get_active_clients] runs.  Whatever the
    readings, the result keeps the configured order, holds every client that
    was out of backoff at its own reading, and holds no other. *)
Theorem get_active_clients_any_clock (time_time : nat -> Q) :
  let active := get_active_clients self time_time in
  active `sublist_of` _replica_clients self
  /\ (length active <= _get_client_count self)%nat
  /\ (forall j c, _replica_clients self !! j = Some c ->
        (backoff_end_time c <= time_time j * 1000)%Q -> c ∈ active)
  /\ (forall c, c ∈ active ->
        exists j, _replica_clients self !! j = Some c
          /\ (backoff_end_time c <= time_time j * 1000)%Q).
Proof.
  intros active. subst active. unfold get_active_clients, _get_client_count.
  destruct (active_clients_loop_general time_time (_replica_clients self) 0 [])
    as (kept & -> & Hsub & Hin & Hout).
  simpl. split; [done |]. split; [by apply sublist_length |]. by split.
Qed.

Lemma filter_active_mono (now later : Q) (clients : list ReplicaClient) :
  (now <= later)%Q ->
  filter (fun c => (backoff_end_time c <= now)%Q) clients
  `sublist_of` filter (fun c => (backoff_end_time c <= later)%Q) clients.
Proof.
  intros Hle. induction clients as [| c rest IH]; [done |].
  rewrite !filter_cons.
  destruct (decide (backoff_end_time c <= now)%Q) as [Hc | Hc].
  - rewrite decide_True by (by eapply Qle_trans). by apply sublist_skip.
  - destruct (decide (backoff_end_time c <= later)%Q); [by apply sublist_cons | done].
Qed.

(** X16: time only brings endpoints back: the clients active at one time are
    still active, in the same order, at any later time. *)
Theorem get_active_clients_grows (now later : Q) :
  (now <= later)%Q ->
  (get_active_clients self (fun _ => now / 1000)%Q)
  `sublist_of` (get_active_clients self (fun _ => later / 1000)%Q).
Proof.
  intros Hle. unfold get_active_clients.
  rewrite !active_clients_loop_filter. simpl. by apply filter_active_mono.
Qed.

(** X17: a backed-off endpoint leaves the active set and comes back by itself:
    after [backoff] at clock reading [t] the client is inactive at every
    time before [t * 1000 + min_ms] and active at every time from
    [t * 1000 + max min_ms max_ms] on. *)
Theorem backoff_then_active (client : ReplicaClient) (jitter t now : Q) :
  0 <= failed_attempts client -> (0 <= jitter)%Q -> (jitter <= 1)%Q ->
  let client' := (backoff self client jitter t).2 in
  client' ∈ _replica_clients self ->
  ((now < t * 1000 + inject_Z (min_ms self))%Q ->
   client' ∉ get_active_clients self (fun _ => now / 1000)%Q)
  /\ ((t * 1000 + inject_Z (Z.max (min_ms self) (max_ms self)) <= now)%Q ->
      client' ∈ get_active_clients self (fun _ => now / 1000)%Q).
Proof.
  intros Ha Hj0 Hj1 client' Hin.
  destruct (backoff_window_bounds self client jitter t Ha Hj0 Hj1) as [Hlo Hhi].
  fold client' in Hlo, Hhi.
  unfold get_active_clients. rewrite active_clients_loop_filter. simpl.
  split.
  - intros Hnow Hact. apply list_elem_of_filter in Hact as [Hle _].
    apply (Qlt_irrefl now). eapply Qlt_le_trans; [exact Hnow |].
    by eapply Qle_trans.
  - intros Hnow. apply list_elem_of_filter. split; [| done].
    by eapply Qle_trans.
Qed.

End ActiveSet.

Lemma get_active_clients_grows_witness :
  let m := {| _replica_clients := [demo_replica 1; demo_replica 2];
              _min_backoff := 30; _max_backoff := 600 |} in
  (get_active_clients m (fun _ => 5 / 1000)%Q)
  `sublist_of` (get_active_clients m (fun _ => 9 / 1000)%Q).
Proof.
  intros m. exact (get_active_clients_grows m 5 9 ltac:(discriminate)).
Defined.

Lemma backoff_then_active_witness :
  let c := (backoff {| _replica_clients := []; _min_backoff := 30;
                       _max_backoff := 600 |} (demo_replica 1) (1 # 2) 100).2 in
  let m := {| _replica_clients := [c]; _min_backoff := 30; _max_backoff := 600 |} in
  (c ∉ get_active_clients m (fun _ => 120000 / 1000)%Q)
  /\ (c ∈ get_active_clients m (fun _ => 700000 / 1000)%Q).
Proof.
  intros c m.
  pose proof (fun now => backoff_then_active m (demo_replica 1) (1 # 2) 100 now
                ltac:(simpl; lia) ltac:(discriminate) ltac:(discriminate)
                ltac:(apply list_elem_of_singleton; reflexivity)) as H.
  split.
  - exact (proj1 (H 120000%Q) ltac:(reflexivity)).
  - exact (proj2 (H 700000%Q) ltac:(discriminate)).
Defined.

(** * Further properties of the endpoint client *)

Lemma dict_set_keys (k : skey) (v : option string) (d : dict) :
  dict_contains k d = true -> (dict_set k v d).*1 = d.*1.
Proof.
  induction d as [| [k' v'] rest IH]; [discriminate |].
  unfold dict_contains in *. cbn [existsb dict_set fst].
  destruct (bool_decide (k' = k)) eqn:Hk.
  - intros _. apply bool_decide_eq_true in Hk. subst k'. by rewrite !fmap_cons.
  - rewrite orb_false_l. intros Hc. rewrite !fmap_cons. f_equal. by apply IH.
Qed.

Lemma refresh_sentinels_keys (configs : list ConfigurationSetting) :
  forall d, (foldl refresh_sentinel d configs).*1 = d.*1.
Proof.
  induction configs as [| c rest IH]; intros d; simpl; [done |].
  rewrite IH. unfold refresh_sentinel.
  destruct (dict_contains _ d) eqn:Hc; [by apply dict_set_keys | done].
Qed.

Lemma sentinel_step_length (r sk : loc) (h : list dict) c :
  length (sentinel_step r sk h c) = length h.
Proof.
  unfold sentinel_step. destruct (dict_contains _ _); [apply length_insert | done].
Qed.

Lemma sentinel_steps_length (r sk : loc) (configs : list ConfigurationSetting) :
  forall h, length (foldl (sentinel_step r sk) h configs) = length h.
Proof.
  induction configs as [| c rest IH]; intros h; simpl; [done |].
  by rewrite IH, sentinel_step_length.
Qed.

Lemma sentinel_steps_frame (r sk x : loc) (configs : list ConfigurationSetting) :
  x <> sk ->
  forall h, heap_get (foldl (sentinel_step r sk) h configs) x = heap_get h x.
Proof.
  intros Hx. induction configs as [| c rest IH]; intros h; simpl; [done |].
  rewrite IH. unfold sentinel_step.
  destruct (dict_contains _ _); [by apply heap_get_insert_ne | done].
Qed.

Lemma sentinel_steps_collect (r sk : loc) (configs : list ConfigurationSetting) :
  sk <> r ->
  forall h, (sk < length h)%nat ->
    heap_get (foldl (sentinel_step r sk) h configs) sk
    = foldl (collect_sentinel (heap_get h r)) (heap_get h sk) configs.
Proof.
  intros Hne. induction configs as [| c rest IH]; intros h Hlive; simpl; [done |].
  rewrite IH by (by rewrite sentinel_step_length).
  unfold sentinel_step, collect_sentinel.
  destruct (dict_contains _ _); [| done].
  by rewrite heap_get_insert_ne, heap_get_insert_eq.
Qed.

Section LoadProtocol.

Context {S : Type} `{!AzureAppConfigurationClient S}.

Variable self : ReplicaClient.

(** The outer loop of a full load, in full: what it lists, what it does to
    the heap, and how it ends. *)
Lemma load_select_loop_full (refresh_on sentinel_keys : loc)
    (selects : list SettingSelector) :
  forall acc (w : world S) r w',
    for_each selects acc (load_select self refresh_on sentinel_keys) w = (r, w') ->
    exists evs,
      trace w' = trace w ++ evs
      /\ heap w' = foldl (sentinel_step refresh_on sentinel_keys) (heap w)
                         (listed_entries evs)
      /\ list_calls evs `prefix_of` map (settings_call self) selects
      /\ listing_errors evs = match r with Ok _ => [] | Raise e => [e] end
      /\ (forall e, r = Raise e ->
            exists h kf lf items, last evs = Some (EvList h kf lf (items, Some e)))
      /\ (forall cs, r = Ok cs ->
            cs = acc ++ listed_entries evs
            /\ list_calls evs = map (settings_call self) selects).
Proof.
  induction selects as [| sel rest IH]; intros acc w r w' Hrun.
  - injection Hrun as <- <-. exists []. simpl. rewrite app_nil_r.
    split; [done |]. split; [done |]. split; [done |]. split; [done |].
    split; [discriminate |].
    intros cs [= <-]. by rewrite app_nil_r.
  - rewrite for_each_cons, bind_run in Hrun. unfold load_select at 1 in Hrun.
    rewrite bind_run in Hrun. unfold call_list at 1 in Hrun.
    destruct (client_list_configuration_settings (_client self) (key_filter sel)
                (label_filter sel) (transport w)) as [[items err] s1].
    unfold for_paged in Hrun. rewrite bind_run, load_setting_loop in Hrun.
    simpl in Hrun. destruct err as [e |].
    + injection Hrun as <- <-. eexists [_]. simpl. rewrite app_nil_r.
      split; [done |]. split; [done |].
      split; [apply prefix_cons, prefix_nil |]. split; [done |].
      split; [| discriminate].
      intros e' [= <-]. by eexists _, _, _, _.
    + apply IH in Hrun as (evs & Htr & Hheap & Hpre & Herr & Hlast & Hok).
      simpl in Htr, Hheap.
      eexists (_ :: evs). simpl. rewrite Htr, <- app_assoc. split; [done |].
      split; [by rewrite foldl_app |].
      split; [by apply prefix_cons |]. split; [done |]. split.
      * intros e Hre. destruct (Hlast e Hre) as (h & kf & lf & its & Hl).
        exists h, kf, lf, its. destruct evs; [done | exact Hl].
      * intros cs Hcs. destruct (Hok cs Hcs) as [-> ->].
        by rewrite <- app_assoc.
Qed.

Lemma load_configuration_settings_full (selects : list SettingSelector)
    (refresh_on : loc) (kw : kwargs) (w : world S) r w' :
  load_configuration_settings self selects refresh_on kw w = (r, w') ->
  exists evs,
    trace w' = trace w ++ EvLoadConfigurationSettings :: evs
    /\ heap w' = foldl (sentinel_step refresh_on (default refresh_on kw)) (heap w)
                       (listed_entries evs)
    /\ list_calls evs `prefix_of` map (settings_call self) selects
    /\ listing_errors evs = match r with Ok _ => [] | Raise e => [e] end
    /\ (forall e, r = Raise e ->
          exists h kf lf items, last evs = Some (EvList h kf lf (items, Some e)))
    /\ (forall cs sk, r = Ok (cs, sk) ->
          sk = default refresh_on kw
          /\ cs = listed_entries evs
          /\ list_calls evs = map (settings_call self) selects).
Proof.
  unfold load_configuration_settings. rewrite bind_run. unfold log at 1.
  rewrite bind_run. intros Hrun.
  match type of Hrun with
  | context [for_each ?xs ?acc ?body ?w0] =>
      destruct (for_each xs acc body w0) as [[cs | e] w1] eqn:Hloop
  end;
    apply load_select_loop_full in Hloop
      as (evs & Htr & Hheap & Hpre & Herr & Hlast & Hok);
    simpl in Htr, Hheap; injection Hrun as <- <-; exists evs;
    (split; [by rewrite Htr, <- app_assoc |]);
    (split; [done |]); (split; [done |]); (split; [done |]).
  - split; [discriminate |].
    intros cs' sk [= <- <-]. by destruct (Hok cs eq_refl) as [-> ->].
  - split; [| discriminate]. intros e' [= <-]. by apply Hlast.
Qed.

(** X2: a full load without a [sentinel_keys] keyword never enlarges the watched
    map: whatever the outcome, [refresh_on] has the keys it had, in the same
    order; no dictionary is created and no other dictionary is written. *)
Theorem load_configuration_settings_keeps_keys (selects : list SettingSelector)
    (refresh_on : loc) (w : world S) :
  let w' := (load_configuration_settings self selects refresh_on None w).2 in
  (heap_get (heap w') refresh_on).*1 = (heap_get (heap w) refresh_on).*1
  /\ length (heap w') = length (heap w)
  /\ (forall x, x <> refresh_on -> heap_get (heap w') x = heap_get (heap w) x).
Proof.
  intros w'. subst w'.
  destruct (load_configuration_settings self selects refresh_on None w)
    as [r w'] eqn:Hrun.
  apply load_configuration_settings_full in Hrun as (evs & _ & Hheap & _).
  simpl in *. rewrite Hheap. split; [| split].
  - by rewrite sentinel_steps_get, refresh_sentinels_keys.
  - apply sentinel_steps_length.
  - intros x Hx. by apply sentinel_steps_frame.
Qed.

(** X3: with a [sentinel_keys] keyword a full load hands back that dictionary,
    stores in it the etag of every loaded entry whose pair is watched in
    [refresh_on], and leaves [refresh_on] itself as it was. *)
Theorem load_configuration_settings_separate_sentinels
    (selects : list SettingSelector) (refresh_on sentinel_keys : loc)
    (w : world S) cs sk w' :
  load_configuration_settings self selects refresh_on (Some sentinel_keys) w
  = (Ok (cs, sk), w') ->
  sentinel_keys <> refresh_on -> (sentinel_keys < length (heap w))%nat ->
  sk = sentinel_keys
  /\ heap_get (heap w') refresh_on = heap_get (heap w) refresh_on
  /\ heap_get (heap w') sentinel_keys
     = foldl (collect_sentinel (heap_get (heap w) refresh_on))
             (heap_get (heap w) sentinel_keys) cs.
Proof.
  intros Hrun Hne Hlive.
  apply load_configuration_settings_full in Hrun as (evs & _ & Hheap & _ & _ & _ & Hok).
  destruct (Hok cs sk eq_refl) as (-> & -> & _). simpl in *.
  rewrite Hheap. split; [done |]. split.
  - by apply sentinel_steps_frame.
  - by apply sentinel_steps_collect.
Qed.

(** X4: a full load that returns has made one listing per selector, in selector
    order and with that selector's filters; it returns nothing that was not
    listed, and it returns every listed plain setting, in listing order. *)
Theorem load_configuration_settings_listing (selects : list SettingSelector)
    (refresh_on : loc) (kw : kwargs) (w : world S) cs sk w' evs :
  load_configuration_settings self selects refresh_on kw w = (Ok (cs, sk), w') ->
  trace w' = trace w ++ evs ->
  list_calls evs = map (settings_call self) selects
  /\ cs `sublist_of` listed_entries evs
  /\ List.filter is_plain cs = List.filter is_plain (listed_entries evs).
Proof.
  intros Hrun Htr.
  apply load_configuration_settings_full in Hrun as (evs' & Htr' & _ & _ & _ & _ & Hok).
  rewrite Htr' in Htr. apply app_inv_head in Htr. subst evs.
  destruct (Hok cs sk eq_refl) as (_ & -> & Hcalls). simpl.
  by rewrite Hcalls.
Qed.

(** X5: a full load raises exactly when a listing fails: the error raised is
    that of the last listing made, no other listing of the run failed, and
    the selectors after the failing one are not listed. *)
Theorem load_configuration_settings_failure (selects : list SettingSelector)
    (refresh_on : loc) (kw : kwargs) (w : world S) r w' evs :
  load_configuration_settings self selects refresh_on kw w = (r, w') ->
  trace w' = trace w ++ evs ->
  listing_errors evs = match r with Ok _ => [] | Raise e => [e] end
  /\ list_calls evs `prefix_of` map (settings_call self) selects
  /\ (forall e, r = Raise e ->
        exists h kf lf items, last evs = Some (EvList h kf lf (items, Some e))).
Proof.
  intros Hrun Htr.
  apply load_configuration_settings_full in Hrun
    as (evs' & Htr' & _ & Hpre & Herr & Hlast & _).
  rewrite Htr' in Htr. apply app_inv_head in Htr. subst evs. simpl.
  split; [done |]. split; [done |].
  intros e He. destruct (Hlast e He) as (h & kf & lf & items & Hl).
  exists h, kf, lf, items. destruct evs'; [done | exact Hl].
Qed.

End LoadProtocol.

Lemma heap_insert_get (h : list dict) (r : loc) : <[r := heap_get h r]> h = h.
Proof.
  unfold heap_get. destruct (h !! r) as [d |] eqn:Hr; simpl.
  - by apply list_insert_id.
  - apply list_insert_ge. by apply lookup_ge_None.
Qed.

Lemma heap_insert_new (h : list dict) (d0 d : dict) :
  <[length h := d]> (h ++ [d0]) = h ++ [d].
Proof. induction h as [| x h IH]; simpl; [done | by rewrite IH]. Qed.

Section FlagProtocol.

Context {S : Type} `{!AzureAppConfigurationClient S}.
Context {J : Type} `{!JsonDecoder J}.

Variable FEATURE_FLAG_PREFIX : string.
Variable self : ReplicaClient.

(** The inner loop of [load_feature_flags], in full. *)
Lemma load_flag_loop_full (enabled : bool) (sentinels : loc)
    (items : list ConfigurationSetting) :
  forall (acc : list J) (w : world S) r w',
    for_each items acc (load_flag enabled sentinels) w = (r, w') ->
    trace w' = trace w
    /\ (exists d, heap w' = <[sentinels := d]> (heap w))
    /\ (enabled = false -> heap w' = heap w)
    /\ (forall flags, r = Ok flags ->
          exists new,
            flags = acc ++ new
            /\ Forall2 (decodes (J := J)) new items
            /\ (enabled = true -> (sentinels < length (heap w))%nat ->
                heap_get (heap w') sentinels
                = foldl track_flag (heap_get (heap w) sentinels) items)).
Proof.
  induction items as [| c rest IH]; intros acc w r w' Hrun.
  - injection Hrun as <- <-. split; [done |].
    split; [exists (heap_get (heap w) sentinels); by rewrite heap_insert_get |].
    split; [done |]. intros flags [= <-]. exists []. by rewrite app_nil_r.
  - rewrite for_each_cons, bind_run in Hrun. unfold load_flag at 1 in Hrun.
    destruct (json_loads (value c)) as [flag |] eqn:Hjson.
    + destruct enabled.
      * unfold setitem in Hrun. rewrite !bind_run in Hrun. simpl in Hrun.
        apply IH in Hrun as (Htr & (d & Hd) & _ & Hok). simpl in Htr, Hd, Hok.
        split; [done |].
        split; [exists d; by rewrite Hd, list_insert_insert_eq |].
        split; [discriminate |].
        intros flags Hr. destruct (Hok flags Hr) as (new & -> & Hdec & Hheap).
        exists (flag :: new). split; [by rewrite <- app_assoc |].
        split; [by constructor |].
        intros _ Hlive. rewrite Hheap by (by rewrite ?length_insert).
        by rewrite heap_get_insert_eq.
      * simpl in Hrun. apply IH in Hrun as (Htr & Hd & Hsame & Hok).
        split; [done |]. split; [done |]. split; [done |].
        intros flags Hr. destruct (Hok flags Hr) as (new & -> & Hdec & _).
        exists (flag :: new). split; [by rewrite <- app_assoc |].
        split; [by constructor |]. discriminate.
    + injection Hrun as <- <-. split; [done |].
      split; [exists (heap_get (heap w) sentinels); by rewrite heap_insert_get |].
      split; [done |]. discriminate.
Qed.

(** The outer loop of [load_feature_flags], in full. *)
Lemma load_flag_select_loop_full (enabled : bool) (sentinels : loc)
    (selectors : list SettingSelector) :
  forall (acc : list J) (w : world S) r w',
    for_each selectors acc
      (load_flag_select FEATURE_FLAG_PREFIX self enabled sentinels) w = (r, w') ->
    exists evs,
      trace w' = trace w ++ evs
      /\ count_events is_flag_reload evs = 0%nat
      /\ (exists d, heap w' = <[sentinels := d]> (heap w))
      /\ (enabled = false -> heap w' = heap w)
      /\ list_calls evs
         `prefix_of` map (flags_call FEATURE_FLAG_PREFIX self) selectors
      /\ (forall flags, r = Ok flags ->
            list_calls evs = map (flags_call FEATURE_FLAG_PREFIX self) selectors
            /\ exists new,
                 flags = acc ++ new
                 /\ Forall2 (decodes (J := J)) new (listed_entries evs)
                 /\ (enabled = true -> (sentinels < length (heap w))%nat ->
                     heap_get (heap w') sentinels
                     = foldl track_flag (heap_get (heap w) sentinels)
                             (listed_entries evs))).
Proof.
  induction selectors as [| sel rest IH]; intros acc w r w' Hrun.
  - injection Hrun as <- <-. exists []. simpl. rewrite app_nil_r.
    split; [done |]. split; [done |].
    split; [exists (heap_get (heap w) sentinels); by rewrite heap_insert_get |].
    split; [done |]. split; [done |].
    intros flags [= <-]. split; [done |]. exists []. rewrite app_nil_r.
    split; [done |]. split; [constructor | done].
  - rewrite for_each_cons, bind_run in Hrun. unfold load_flag_select at 1 in Hrun.
    rewrite bind_run in Hrun. unfold call_list at 1 in Hrun.
    destruct (client_list_configuration_settings _ _ _ _) as [[items err] s1].
    unfold for_paged in Hrun. rewrite bind_run in Hrun. simpl fst in Hrun.
    match type of Hrun with
    | context [for_each items ?a ?body ?w0] =>
        destruct (for_each items a body w0) as [[acc' | e] w1] eqn:Hinner
    end;
      apply load_flag_loop_full in Hinner as (Htr1 & (d1 & Hd1) & Hsame1 & Hok1);
      simpl in Htr1, Hd1, Hsame1, Hok1.
    + destruct (Hok1 acc' eq_refl) as (new1 & -> & Hdec1 & Hheap1).
      simpl snd in Hrun. destruct err as [e |].
      * injection Hrun as <- <-. eexists [_]. rewrite Htr1. simpl.
        split; [done |]. split; [done |].
        split; [by exists d1 |]. split; [done |].
        split; [apply prefix_cons, prefix_nil |]. discriminate.
      * apply IH in Hrun as (evs & Htr & Hcnt & (d & Hd) & Hsame & Hpre & Hok).
        eexists (_ :: evs). rewrite Htr, Htr1, <- app_assoc. simpl.
        split; [done |]. split; [by rewrite count_events_cons, Hcnt |].
        split; [exists d; by rewrite Hd, Hd1, list_insert_insert_eq |].
        split; [intros He; by rewrite Hsame, Hsame1 |].
        split; [by apply prefix_cons |].
        intros flags Hr. destruct (Hok flags Hr) as (-> & new & -> & Hdec & Hheap).
        split; [done |]. exists (new1 ++ new).
        split; [by rewrite app_assoc |].
        split; [by apply Forall2_app |].
        intros He Hlive. rewrite foldl_app. simpl fst. rewrite <- Hheap1 by done.
        apply Hheap; [done |]. by rewrite Hd1, length_insert.
    + injection Hrun as <- <-. eexists [_]. rewrite Htr1. simpl.
      split; [done |]. split; [done |].
      split; [by exists d1 |]. split; [done |].
      split; [apply prefix_cons, prefix_nil |]. discriminate.
Qed.

Lemma load_feature_flags_full (selectors : list SettingSelector)
    (enabled : bool) (kw : kwargs) (w : world S) r w' :
  load_feature_flags FEATURE_FLAG_PREFIX self selectors enabled kw w = (r, w') ->
  exists evs d,
    trace w' = trace w ++ EvLoadFeatureFlags :: evs
    /\ count_events is_flag_reload evs = 0%nat
    /\ heap w' = heap w ++ [d]
    /\ (enabled = false -> d = [])
    /\ list_calls evs
       `prefix_of` map (flags_call FEATURE_FLAG_PREFIX self) selectors
    /\ (forall flags sk, r = Ok (flags, sk) ->
          sk = length (heap w)
          /\ list_calls evs = map (flags_call FEATURE_FLAG_PREFIX self) selectors
          /\ Forall2 (decodes (J := J)) flags (listed_entries evs)
          /\ (enabled = true -> d = foldl track_flag [] (listed_entries evs))).
Proof.
  unfold load_feature_flags. rewrite bind_run. unfold log at 1.
  rewrite bind_run. unfold new_dict at 1. rewrite bind_run. intros Hrun.
  match type of Hrun with
  | context [for_each ?xs ?acc ?body ?w0] =>
      destruct (for_each xs acc body w0) as [rl w1] eqn:Hloop
  end.
  apply load_flag_select_loop_full in Hloop
    as (evs & Htr & Hcnt & (d & Hd) & Hsame & Hpre & Hok).
  simpl in Htr, Hd, Hsame, Hok. rewrite heap_insert_new in Hd.
  assert (Hw : w' = w1) by (destruct rl; by injection Hrun as _ <-).
  subst w'. exists evs, d. split; [by rewrite Htr, <- app_assoc |].
  split; [done |]. split; [done |]. split.
  { intros He. specialize (Hsame He). rewrite Hd in Hsame.
    apply app_inv_head in Hsame. by injection Hsame. }
  split; [done |].
  intros flags sk Hr. destruct rl as [flags' | e]; [| by injection Hrun as <-].
  injection Hrun as <-. injection Hr as <- <-.
  destruct (Hok flags' eq_refl) as (Hcalls & new & -> & Hdec & Hheap).
  split; [done |]. split; [done |]. split; [done |].
  intros He. specialize (Hheap He).
  rewrite Hd, heap_get_new, heap_get_new in Hheap.
  apply Hheap. rewrite length_app. simpl. lia.
Qed.

(** X6: a load of feature flags that returns has made one listing per selector,
    in selector order, each with the selector's key filter behind the
    feature-flag prefix; the flags it returns are the decoded values of the
    listed entries, one for one and in listing order. *)
Theorem load_feature_flags_listing (selectors : list SettingSelector)
    (enabled : bool) (kw : kwargs) (w : world S) flags sk w' evs :
  load_feature_flags FEATURE_FLAG_PREFIX self selectors enabled kw w
  = (Ok (flags, sk), w') ->
  trace w' = trace w ++ evs ->
  list_calls evs = map (flags_call FEATURE_FLAG_PREFIX self) selectors
  /\ Forall2 (decodes (J := J)) flags (listed_entries evs).
Proof.
  intros Hrun Htr.
  apply load_feature_flags_full in Hrun as (evs' & d & Htr' & _ & _ & _ & _ & Hok).
  rewrite Htr' in Htr. apply app_inv_head in Htr. subst evs. simpl.
  by destruct (Hok flags sk eq_refl) as (_ & Hcalls & Hdec & _).
Qed.

(** X7: the sentinel map of a load of feature flags is a new dictionary: the
    dictionaries that existed are left as they were, whatever the outcome.
    With refresh disabled the new dictionary stays empty; with refresh
    enabled a load that returns has stored in it the etag of every listed
    flag, under the flag's key and label. *)
Theorem load_feature_flags_sentinels (selectors : list SettingSelector)
    (enabled : bool) (kw : kwargs) (w : world S) r w' evs :
  load_feature_flags FEATURE_FLAG_PREFIX self selectors enabled kw w = (r, w') ->
  trace w' = trace w ++ evs ->
  exists d,
    heap w' = heap w ++ [d]
    /\ (enabled = false -> d = [])
    /\ (forall flags sk, r = Ok (flags, sk) ->
          sk = length (heap w)
          /\ (enabled = true -> d = foldl track_flag [] (listed_entries evs))).
Proof.
  intros Hrun Htr.
  apply load_feature_flags_full in Hrun as (evs' & d & Htr' & _ & Hheap & Hoff & _ & Hok).
  rewrite Htr' in Htr. apply app_inv_head in Htr. subst evs. simpl.
  exists d. split; [done |]. split; [done |].
  intros flags sk Hr. by destruct (Hok flags sk Hr) as (-> & _ & _ & Hd).
Qed.

End FlagProtocol.

Section RefreshProtocol.

Context {S : Type} `{!AzureAppConfigurationClient S}.

Variable self : ReplicaClient.
Variable selects : list SettingSelector.
Variable hd : headers.
Variable kw : kwargs.

(** The checking loop ends with [need_refresh] false only if it started so
    and every pair reported no change. *)
Lemma check_loop_false (copy : loc) (items : dict) :
  forall (need_refresh : bool) (w : world S) w',
    for_each items need_refresh (check_sentinel self copy hd kw) w
    = (Ok false, w') ->
    need_refresh = false /\ no_change_detected self items hd kw w.
Proof.
  induction items as [| [[k l] e] rest IH]; intros acc w w' Hrun.
  - by injection Hrun as -> _.
  - rewrite for_each_cons, bind_run in Hrun. unfold check_sentinel in Hrun.
    rewrite bind_run, check_configuration_setting_unfold in Hrun.
    destruct (client_get_configuration_setting (_client self) k l e hd kw
                (transport w)) as [o s'] eqn:Hget.
    destruct (check_result e o) as [[changed [u |]] | err] eqn:Hres;
      [| | discriminate].
    + rewrite bind_run in Hrun. unfold setitem in Hrun.
      rewrite bind_run in Hrun. simpl in Hrun.
      apply IH in Hrun as [Hacc _]. destruct changed; [done |].
      apply check_result_unchanged in Hres. discriminate.
    + simpl in Hrun. apply IH in Hrun as [Hacc Hrest].
      destruct changed; [done |]. split; [done |]. simpl.
      eexists None, _. rewrite check_configuration_setting_unfold, Hget, Hres.
      split; [reflexivity | exact Hrest].
Qed.

(** The checking loop raises only what the transport raised on the last
    fetch it made, and never a 404. *)
Lemma check_loop_raise (copy : loc) (items : dict) :
  forall (need_refresh : bool) (w : world S) err w',
    for_each items need_refresh (check_sentinel self copy hd kw) w
    = (Raise err, w') ->
    is_404 err = false
    /\ exists evs k l e,
         trace w' = trace w ++ evs ++ [EvGet (_client self) k l e (Raise err)].
Proof.
  induction items as [| [[k l] e] rest IH]; intros acc w err w' Hrun.
  - discriminate.
  - rewrite for_each_cons, bind_run in Hrun. unfold check_sentinel in Hrun.
    rewrite bind_run, check_configuration_setting_unfold in Hrun.
    destruct (client_get_configuration_setting (_client self) k l e hd kw
                (transport w)) as [o s'] eqn:Hget.
    destruct (check_result e o) as [[changed [u |]] | err'] eqn:Hres.
    + rewrite bind_run in Hrun. unfold setitem in Hrun.
      rewrite bind_run in Hrun. simpl in Hrun.
      apply IH in Hrun as (H404 & evs & k' & l' & e' & Htr). simpl in Htr.
      split; [done |]. eexists (_ :: evs), k', l', e'.
      by rewrite Htr, <- !app_assoc.
    + simpl in Hrun.
      apply IH in Hrun as (H404 & evs & k' & l' & e' & Htr). simpl in Htr.
      split; [done |]. eexists (_ :: evs), k', l', e'.
      by rewrite Htr, <- !app_assoc.
    + injection Hrun as <- <-. simpl.
      destruct o as [[u |] | err'']; simpl in Hres; try discriminate.
      destruct (is_404 err'') eqn:H404; [destruct e; discriminate |].
      injection Hres as <-. split; [done |]. by exists [], k, l, e.
Qed.

(** X8: [refresh_configuration_settings] reports no change exactly when no
    watched pair is detected as changed. *)
Theorem refresh_configuration_settings_unchanged_iff (refresh_on : loc)
    (w : world S) :
  let r := (refresh_configuration_settings self selects refresh_on hd kw w).1 in
  (exists sk cs, r = Ok (false, sk, cs))
  <-> no_change_detected self (heap_get (heap w) refresh_on) hd kw w.
Proof.
  intros r. subst r.
  destruct (refresh_configuration_settings self selects refresh_on hd kw w)
    as [r w'] eqn:Hrun. simpl.
  apply refresh_configuration_settings_run in Hrun.
  destruct Hrun as (rn & w2 & Hchk & Hrest). unfold check_sentinels in Hchk.
  split.
  - intros (sk & cs & ->).
    destruct rn as [[|] | e].
    + destruct Hrest as (rl & _ & Hr). by destruct rl as [[? ?] |].
    + apply check_loop_false in Hchk as [_ Hno].
      eapply no_change_detected_transport; [| exact Hno]. reflexivity.
    + by destruct Hrest as [[=] _].
  - intros Hno.
    apply check_loop_run in Hchk as (_ & _ & _ & Hok).
    destruct Hok as [-> _].
    { eapply no_change_detected_transport; [| exact Hno]. reflexivity. }
    destruct Hrest as [-> _]. by eexists _, _.
Qed.

(** X9: the caller's watched map is written by a full load only: a call that
    enters no [load_configuration_settings], whether it returns or raises,
    leaves [refresh_on] as it was. *)
Theorem refresh_configuration_settings_writes_on_reload_only (refresh_on : loc)
    (w : world S) r w' evs :
  refresh_configuration_settings self selects refresh_on hd kw w = (r, w') ->
  trace w' = trace w ++ evs ->
  count_events is_reload evs = 0%nat ->
  heap_get (heap w') refresh_on = heap_get (heap w) refresh_on.
Proof.
  intros Hrun Htr Hcnt. apply refresh_configuration_settings_run in Hrun.
  destruct Hrun as (rn & w2 & Hchk & Hrest). unfold check_sentinels in Hchk.
  assert (Hw2 : heap_get (heap w2) refresh_on = heap_get (heap w) refresh_on).
  { destruct (decide (refresh_on < length (heap w))%nat) as [Hlive | Hout].
    - apply check_loop_run in Hchk as (_ & _ & Hframe & _). simpl in Hframe.
      rewrite Hframe by lia. by apply heap_get_app_l.
    - rewrite heap_get_out in Hchk by lia. injection Hchk as _ <-. simpl.
      rewrite <- (heap_get_out (heap w) refresh_on) at 1 by lia.
      apply heap_get_copy. }
  destruct rn as [[|] | e]; [| by destruct Hrest as [_ ->]..].
  destruct Hrest as (rl & Hload & _).
  apply check_loop_run in Hchk as ((evs1 & Htr1 & _) & _).
  apply load_configuration_settings_run in Hload as ((evs2 & Htr2 & _) & _).
  simpl in Htr1. rewrite Htr2, Htr1, <- app_assoc in Htr.
  apply app_inv_head in Htr. subst evs.
  rewrite count_events_app, count_events_cons in Hcnt. simpl in Hcnt. lia.
Qed.

(** X10: [refresh_configuration_settings] raises nothing of its own: an error
    that leaves it is the error of the last transport call it made, either
    a fetch that failed with something other than a 404 or a listing that
    failed. *)
Theorem refresh_configuration_settings_raises_transport_error
    (refresh_on : loc) (w : world S) err w' :
  refresh_configuration_settings self selects refresh_on hd kw w
  = (Raise err, w') ->
  exists evs last_call,
    trace w' = trace w ++ evs ++ [last_call]
    /\ ((exists k l e, last_call = EvGet (_client self) k l e (Raise err)
                       /\ is_404 err = false)
        \/ (exists h kf lf items, last_call = EvList h kf lf (items, Some err))).
Proof.
  intros Hrun. apply refresh_configuration_settings_run in Hrun.
  destruct Hrun as (rn & w2 & Hchk & Hrest). unfold check_sentinels in Hchk.
  destruct rn as [[|] | e].
  - destruct Hrest as (rl & Hload & Hr).
    destruct rl as [[? ?] | e]; [discriminate |]. injection Hr as ->.
    apply check_loop_run in Hchk as ((evs1 & Htr1 & _) & _). simpl in Htr1.
    apply load_configuration_settings_full in Hload
      as (evs2 & Htr2 & _ & _ & _ & Hlast & _).
    destruct (Hlast e eq_refl) as (h & kf & lf & items & Hl).
    destruct (last_Some evs2 (EvList h kf lf (items, Some e))) as [Hex _].
    destruct (Hex Hl) as (evs2' & ->).
    exists (evs1 ++ EvLoadConfigurationSettings :: evs2'), (EvList h kf lf (items, Some e)).
    split; [| right; by exists h, kf, lf, items].
    rewrite Htr2, Htr1. by rewrite <- !app_assoc.
  - by destruct Hrest as [[=] _].
  - destruct Hrest as [[= ->] ->].
    apply check_loop_raise in Hchk as (H404 & evs & k & l & e' & Htr).
    simpl in Htr. exists evs, (EvGet (_client self) k l e' (Raise e)).
    split; [done |]. left. by exists k, l, e'.
Qed.

(** X11: nothing watched, nothing done: with an empty watched map the refresh of
    plain settings makes no transport call and reports no change. *)
Theorem refresh_configuration_settings_nothing_watched (refresh_on : loc)
    (w : world S) :
  heap_get (heap w) refresh_on = [] ->
  let run := refresh_configuration_settings self selects refresh_on hd kw w in
  run.1 = Ok (false, refresh_on, [])
  /\ trace run.2 = trace w
  /\ transport run.2 = transport w.
Proof.
  intros Hempty run.
  assert (Hrun : run = (Ok (false, refresh_on, []),
                        World (transport w) (heap w ++ [[]]) (trace w))).
  { subst run. unfold refresh_configuration_settings.
    rewrite bind_run. unfold read_dict at 1.
    rewrite bind_run. unfold new_dict at 1.
    rewrite bind_run. unfold read_dict at 1. simpl heap.
    by rewrite heap_get_new, Hempty, bind_run. }
  by rewrite Hrun.
Qed.

End RefreshProtocol.

Section FlagRefresh.

Context {S : Type} `{!AzureAppConfigurationClient S}.
Context {J : Type} `{!JsonDecoder J}.

Variable FEATURE_FLAG_PREFIX : string.
Variable self : ReplicaClient.
Variable selectors : list SettingSelector.
Variable hd : headers.
Variable kw : kwargs.

(** The shape of a run of [refresh_feature_flags]. *)
Lemma refresh_feature_flags_run (refresh_on : loc) (w : world S) r w' :
  refresh_feature_flags (J := J) FEATURE_FLAG_PREFIX self refresh_on selectors
    hd kw w = (r, w') ->
  let watched := heap_get (heap w) refresh_on in
  let w1 := World (transport w) (heap w ++ [watched]) (trace w) in
  match watched with
  | [] => r = Ok (false, None, None) /\ w' = w1
  | ((k, l), e) :: _ =>
      exists rc w2,
        _check_configuration_setting self k l e hd kw w1 = (rc, w2)
        /\ match rc with
           | Ok _ =>
               exists rl,
                 load_feature_flags (J := J) FEATURE_FLAG_PREFIX self selectors
                   true kw w2 = (rl, w')
                 /\ r = match rl with
                        | Ok (flags, sk) => Ok (true, Some sk, Some flags)
                        | Raise err => Raise err
                        end
           | Raise err => r = Raise err /\ w' = w2
           end
  end.
Proof.
  intros Hrun watched w1. subst watched w1.
  unfold refresh_feature_flags in Hrun.
  rewrite bind_run in Hrun. unfold read_dict at 1 in Hrun.
  rewrite bind_run in Hrun. unfold new_dict at 1 in Hrun.
  rewrite bind_run in Hrun. unfold read_dict at 1 in Hrun. simpl heap in Hrun.
  rewrite heap_get_new in Hrun.
  destruct (heap_get (heap w) refresh_on) as [| [[k l] e] rest].
  - by injection Hrun as <- <-.
  - simpl in Hrun. rewrite bind_run in Hrun.
    destruct (_check_configuration_setting self k l e hd kw _) as [[c | err] w2].
    + exists (Ok c), w2. split; [done |]. simpl in Hrun. rewrite bind_run in Hrun.
      destruct (load_feature_flags _ _ _ _ _ _) as [[[flags sk] | err] w3].
      * injection Hrun as <- <-. by exists (Ok (flags, sk)).
      * injection Hrun as <- <-. by exists (Raise err).
    + injection Hrun as <- <-. by exists (Raise err), w2.
Qed.

(** X12: nothing watched, nothing done: with an empty watched map the refresh of
    feature flags makes no transport call and reports no change, with no
    sentinel map and no flags. *)
Theorem refresh_feature_flags_nothing_watched (refresh_on : loc) (w : world S) :
  heap_get (heap w) refresh_on = [] ->
  let run := refresh_feature_flags (J := J) FEATURE_FLAG_PREFIX self refresh_on
               selectors hd kw w in
  run.1 = Ok (false, None, None)
  /\ trace run.2 = trace w
  /\ transport run.2 = transport w.
Proof.
  intros Hempty run.
  destruct run as [r w'] eqn:Hrun. subst run.
  apply refresh_feature_flags_run in Hrun. rewrite Hempty in Hrun.
  by destruct Hrun as [-> ->].
Qed.

(** X13: [refresh_feature_flags] writes to no dictionary that existed before the
    call, the caller's watched map included, whatever the outcome; the
    sentinel map of a changed result is a dictionary made during the call. *)
Theorem refresh_feature_flags_keeps_dictionaries (refresh_on : loc)
    (w : world S) r w' :
  refresh_feature_flags (J := J) FEATURE_FLAG_PREFIX self refresh_on selectors
    hd kw w = (r, w') ->
  (exists made, heap w' = heap w ++ made)
  /\ (forall x, (x < length (heap w))%nat ->
        heap_get (heap w') x = heap_get (heap w) x)
  /\ (forall b sk flags, r = Ok (b, Some sk, flags) ->
        (length (heap w) <= sk)%nat /\ (sk < length (heap w'))%nat).
Proof.
  intros Hrun. apply refresh_feature_flags_run in Hrun.
  assert (Hmain : (exists made, heap w' = heap w ++ made)
            /\ (forall b sk flags, r = Ok (b, Some sk, flags) ->
                  (length (heap w) <= sk)%nat /\ (sk < length (heap w'))%nat)).
  { destruct (heap_get (heap w) refresh_on) as [| [[k l] e] rest].
    - destruct Hrun as [-> ->]. split; [by eexists |]. discriminate.
    - destruct Hrun as (rc & w2 & Hchk & Hrest).
      rewrite check_configuration_setting_unfold in Hchk.
      destruct (client_get_configuration_setting _ _ _ _ _ _ _) as [o s'].
      injection Hchk as <- <-. destruct (check_result e o) as [c | err].
      + destruct Hrest as (rl & Hload & ->).
        apply load_feature_flags_full in Hload
          as (evs & d & _ & _ & Hheap & _ & _ & Hok).
        simpl in Hheap, Hok. split.
        * eexists. rewrite Hheap, <- app_assoc. reflexivity.
        * intros b sk flags Hr. destruct rl as [[fl sk'] | err]; [| discriminate].
          injection Hr as _ <- _.
          destruct (Hok fl sk' eq_refl) as (-> & _).
          rewrite Hheap, !length_app. simpl. lia.
      + destruct Hrest as [-> ->]. simpl. split; [by eexists |]. discriminate. }
  destruct Hmain as [[made Hmade] Hfresh].
  split; [by exists made |]. split; [| done].
  intros x Hx. rewrite Hmade. unfold heap_get. by rewrite lookup_app_l.
Qed.

(** X14: a call of [refresh_feature_flags] enters [load_feature_flags] at most
    once.  A changed result comes with one load and carries both a sentinel
    map and flags; an unchanged result comes with no load and carries
    neither. *)
Theorem refresh_feature_flags_result_shape (refresh_on : loc) (w : world S)
    r w' evs :
  refresh_feature_flags (J := J) FEATURE_FLAG_PREFIX self refresh_on selectors
    hd kw w = (r, w') ->
  trace w' = trace w ++ evs ->
  (count_events is_flag_reload evs <= 1)%nat
  /\ (forall sk flags, r = Ok (true, sk, flags) ->
        is_Some sk /\ is_Some flags
        /\ count_events is_flag_reload evs = 1%nat)
  /\ (forall sk flags, r = Ok (false, sk, flags) ->
        sk = None /\ flags = None
        /\ count_events is_flag_reload evs = 0%nat).
Proof.
  intros Hrun Htr. apply refresh_feature_flags_run in Hrun.
  destruct (heap_get (heap w) refresh_on) as [| [[k l] e] rest].
  - destruct Hrun as [-> ->]. simpl in Htr.
    rewrite <- (app_nil_r (trace w)) in Htr at 1.
    apply app_inv_head in Htr. subst evs.
    split; [unfold count_events; simpl; lia |]. split; [discriminate |]. by intros sk flags [= <- <-].
  - destruct Hrun as (rc & w2 & Hchk & Hrest).
    rewrite check_configuration_setting_unfold in Hchk.
    destruct (client_get_configuration_setting _ _ _ _ _ _ _) as [o s'].
    injection Hchk as <- <-. destruct (check_result e o) as [c | err].
    + destruct Hrest as (rl & Hload & ->).
      apply load_feature_flags_full in Hload as (evs2 & d & Htr2 & Hcnt & _).
      simpl in Htr2. rewrite Htr2, <- app_assoc in Htr.
      apply app_inv_head in Htr. subst evs. simpl.
      rewrite !count_events_cons, Hcnt. simpl.
      split; [lia |]. destruct rl as [[fl sk'] | err'].
      * split; [| discriminate]. intros sk flags [= <- <-]. by repeat split.
      * split; discriminate.
    + destruct Hrest as [-> ->]. simpl in Htr.
      apply app_inv_head in Htr. subst evs.
      split; [unfold count_events; simpl; lia |]. split; discriminate.
Qed.

End FlagRefresh.

Section CheckReports.

Context {S : Type} `{!AzureAppConfigurationClient S}.

(** X1: a check makes one conditional fetch for the pair and its known etag and
    touches no dictionary.  A newer entry is reported as a change together
    with the entry, no modification as no change; a replacement entry is
    never reported without a change. *)
Theorem check_configuration_setting_reports (self : ReplicaClient)
    (k l : string) (e : option string) (hd : headers) (kw : kwargs)
    (w : world S) (o : result (option ConfigurationSetting)) (s' : S) :
  client_get_configuration_setting (_client self) k l e hd kw (transport w)
  = (o, s') ->
  let run := _check_configuration_setting self k l e hd kw w in
  (forall u, o = Ok (Some u) -> run.1 = Ok (true, Some u))
  /\ (o = Ok None -> run.1 = Ok (false, None))
  /\ (forall b u, run.1 = Ok (b, Some u) -> b = true /\ o = Ok (Some u))
  /\ heap run.2 = heap w
  /\ transport run.2 = s'
  /\ trace run.2 = trace w ++ [EvGet (_client self) k l e o].
Proof.
  intros Hget run. subst run.
  rewrite check_configuration_setting_unfold, Hget. simpl.
  split; [by intros u -> |]. split; [by intros -> |].
  split; [| done].
  intros b u Hr. destruct o as [[u' |] | err]; simpl in Hr.
  - by injection Hr as <- <-.
  - discriminate.
  - destruct (is_404 err); [destruct e |]; discriminate.
Qed.

End CheckReports.

(** ** The further properties at concrete inputs *)

Lemma check_configuration_setting_reports_witness :
  (@_check_configuration_setting store store_client (demo_replica 1)
     "color" "prod" (Some "v6") [] None (demo_world [demo_setting] [])).1
  = Ok (true, Some demo_setting).
Proof.
  exact (proj1 (@check_configuration_setting_reports store store_client
                  (demo_replica 1) "color" "prod" (Some "v6") [] None
                  (demo_world [demo_setting] []) _ _ eq_refl)
           demo_setting eq_refl).
Defined.

Lemma load_configuration_settings_keeps_keys_witness :
  let w := demo_world [demo_setting; demo_flag]
             [[(("color", "prod"), Some "v6"); (("size", "prod"), None)]] in
  (heap_get (heap (@load_configuration_settings store store_client
                     (demo_replica 1)
                     [{| key_filter := ""; label_filter := "prod" |}]
                     0%nat None w).2) 0%nat).*1
  = [("color", "prod"); ("size", "prod")].
Proof.
  intros w.
  exact (proj1 (@load_configuration_settings_keeps_keys store store_client
                  (demo_replica 1)
                  [{| key_filter := ""; label_filter := "prod" |}] 0%nat w)).
Defined.

Lemma load_configuration_settings_separate_sentinels_witness :
  let w := demo_world [demo_setting; demo_flag]
             [[(("color", "prod"), Some "v6")]; []] in
  let run := @load_configuration_settings store store_client (demo_replica 1)
               [{| key_filter := ""; label_filter := "prod" |}]
               0%nat (Some 1%nat) w in
  heap_get (heap run.2) 0%nat = [(("color", "prod"), Some "v6")]
  /\ heap_get (heap run.2) 1%nat = [(("color", "prod"), Some "v7")].
Proof.
  intros w run.
  destruct (@load_configuration_settings_separate_sentinels store store_client
              (demo_replica 1) [{| key_filter := ""; label_filter := "prod" |}]
              0%nat 1%nat w [demo_setting; demo_flag] 1%nat run.2 eq_refl
              ltac:(discriminate) ltac:(simpl; lia))
    as (_ & Hwatched & Hsentinels).
  split; [exact Hwatched | exact Hsentinels].
Defined.

Lemma load_configuration_settings_listing_witness :
  let w := demo_world [demo_setting; demo_flag] [[]] in
  let run := @load_configuration_settings store store_client (demo_replica 1)
               [{| key_filter := ""; label_filter := "prod" |};
                {| key_filter := "co"; label_filter := "prod" |}]
               0%nat None w in
  list_calls (trace run.2) = [(1%nat, "", "prod"); (1%nat, "co", "prod")].
Proof.
  intros w run.
  exact (proj1 (@load_configuration_settings_listing store store_client
                  (demo_replica 1)
                  [{| key_filter := ""; label_filter := "prod" |};
                   {| key_filter := "co"; label_filter := "prod" |}]
                  0%nat None w [demo_setting; demo_flag; demo_setting] 0%nat
                  run.2 (trace run.2) eq_refl eq_refl)).
Defined.

Lemma load_configuration_settings_failure_witness :
  let w := demo_world [demo_setting] [[]] in
  let run := @load_configuration_settings store store_client (demo_replica 0)
               [{| key_filter := ""; label_filter := "prod" |};
                {| key_filter := "co"; label_filter := "prod" |}]
               0%nat None w in
  listing_errors (trace run.2) = [HttpResponseError (Some 503)]
  /\ list_calls (trace run.2)
     `prefix_of` [(0%nat, "", "prod"); (0%nat, "co", "prod")].
Proof.
  intros w run.
  destruct (@load_configuration_settings_failure store store_client
              (demo_replica 0)
              [{| key_filter := ""; label_filter := "prod" |};
               {| key_filter := "co"; label_filter := "prod" |}]
              0%nat None w (Raise (HttpResponseError (Some 503)))
              run.2 (trace run.2) eq_refl eq_refl)
    as (Herr & Hpre & _).
  split; [exact Herr | exact Hpre].
Defined.

Lemma load_feature_flags_listing_witness :
  let w := demo_world [demo_setting; demo_flag] [] in
  let run := @load_feature_flags store store_client string braces_decoder
               demo_prefix (demo_replica 1)
               [{| key_filter := "be"; label_filter := "prod" |}] true None w in
  list_calls (trace run.2) = [(1%nat, ".appconfig.featureflag/be", "prod")]
  /\ Forall2 (@decodes string braces_decoder) ["{ }"] (listed_entries (trace run.2)).
Proof.
  intros w run.
  exact (@load_feature_flags_listing store store_client string braces_decoder
           demo_prefix (demo_replica 1)
           [{| key_filter := "be"; label_filter := "prod" |}] true None w
           ["{ }"] 0%nat run.2 (trace run.2) eq_refl eq_refl).
Defined.

Lemma load_feature_flags_sentinels_witness :
  let w := demo_world [demo_setting; demo_flag]
             [[(("color", "prod"), Some "v6")]] in
  let run := @load_feature_flags store store_client string braces_decoder
               demo_prefix (demo_replica 1)
               [{| key_filter := ""; label_filter := "prod" |}] true None w in
  exists d, heap run.2 = heap w ++ [d]
    /\ d = [((".appconfig.featureflag/beta", "prod"), Some "v1")].
Proof.
  intros w run.
  destruct (@load_feature_flags_sentinels store store_client string
              braces_decoder demo_prefix (demo_replica 1)
              [{| key_filter := ""; label_filter := "prod" |}] true None w
              run.1 run.2 (trace run.2) eq_refl eq_refl)
    as (d & Hheap & _ & Hok).
  exists d. split; [exact Hheap |].
  exact (proj2 (Hok ["{ }"] 1%nat eq_refl) eq_refl).
Defined.

Lemma refresh_configuration_settings_unchanged_iff_witness :
  let w := demo_world [demo_setting] [[(("color", "prod"), Some "v7")]] in
  exists sk cs,
    (@refresh_configuration_settings store store_client (demo_replica 1)
       [{| key_filter := ""; label_filter := "prod" |}] 0%nat [] None w).1
    = Ok (false, sk, cs).
Proof.
  intros w.
  apply (proj2 (@refresh_configuration_settings_unchanged_iff store store_client
                  (demo_replica 1)
                  [{| key_filter := ""; label_filter := "prod" |}] [] None
                  0%nat w)).
  simpl. eexists _, _. split; [reflexivity | exact I].
Defined.

Lemma refresh_configuration_settings_writes_on_reload_only_witness :
  let w := demo_world [demo_setting] [[(("color", "prod"), Some "v6")]] in
  let run := @refresh_configuration_settings store store_client (demo_replica 0)
               [{| key_filter := ""; label_filter := "prod" |}] 0%nat [] None w in
  heap_get (heap run.2) 0%nat = [(("color", "prod"), Some "v6")].
Proof.
  intros w run.
  exact (@refresh_configuration_settings_writes_on_reload_only store store_client
           (demo_replica 0) [{| key_filter := ""; label_filter := "prod" |}]
           [] None 0%nat w run.1 run.2 (trace run.2) eq_refl eq_refl eq_refl).
Defined.

Lemma refresh_configuration_settings_raises_transport_error_witness :
  let w := demo_world [demo_setting] [[(("color", "prod"), Some "v6")]] in
  let run := @refresh_configuration_settings store store_client (demo_replica 0)
               [{| key_filter := ""; label_filter := "prod" |}] 0%nat [] None w in
  exists evs last_call,
    trace run.2 = trace w ++ evs ++ [last_call]
    /\ ((exists k l e,
           last_call = EvGet 0%nat k l e (Raise (HttpResponseError (Some 503)))
           /\ is_404 (HttpResponseError (Some 503)) = false)
        \/ (exists h kf lf items,
              last_call = EvList h kf lf (items, Some (HttpResponseError (Some 503))))).
Proof.
  intros w run.
  exact (@refresh_configuration_settings_raises_transport_error store
           store_client (demo_replica 0)
           [{| key_filter := ""; label_filter := "prod" |}] [] None 0%nat w
           (HttpResponseError (Some 503)) run.2 eq_refl).
Defined.

Lemma refresh_configuration_settings_nothing_watched_witness :
  let w := demo_world [demo_setting] [[]] in
  let run := @refresh_configuration_settings store store_client (demo_replica 1)
               [{| key_filter := ""; label_filter := "prod" |}] 0%nat [] None w in
  run.1 = Ok (false, 0%nat, []) /\ trace run.2 = trace w
  /\ transport run.2 = transport w.
Proof.
  intros w.
  exact (@refresh_configuration_settings_nothing_watched store store_client
           (demo_replica 1) [{| key_filter := ""; label_filter := "prod" |}]
           [] None 0%nat w eq_refl).
Defined.

Lemma refresh_feature_flags_nothing_watched_witness :
  let w := demo_world [demo_flag] [[]] in
  let run := @refresh_feature_flags store store_client string braces_decoder
               demo_prefix (demo_replica 1) 0%nat
               [{| key_filter := ""; label_filter := "prod" |}] [] None w in
  run.1 = Ok (false, None, None) /\ trace run.2 = trace w
  /\ transport run.2 = transport w.
Proof.
  intros w.
  exact (@refresh_feature_flags_nothing_watched store store_client string
           braces_decoder demo_prefix (demo_replica 1)
           [{| key_filter := ""; label_filter := "prod" |}] [] None 0%nat w
           eq_refl).
Defined.

Lemma refresh_feature_flags_keeps_dictionaries_witness :
  let w := demo_world [demo_flag]
             [[((".appconfig.featureflag/beta", "prod"), Some "v0")]] in
  let run := @refresh_feature_flags store store_client string braces_decoder
               demo_prefix (demo_replica 1) 0%nat
               [{| key_filter := ""; label_filter := "prod" |}] [] None w in
  heap_get (heap run.2) 0%nat
  = [((".appconfig.featureflag/beta", "prod"), Some "v0")].
Proof.
  intros w run.
  exact (proj1 (proj2 (@refresh_feature_flags_keeps_dictionaries store
                         store_client string braces_decoder demo_prefix
                         (demo_replica 1)
                         [{| key_filter := ""; label_filter := "prod" |}]
                         [] None 0%nat w run.1 run.2 eq_refl))
           0%nat ltac:(simpl; lia)).
Defined.

Lemma refresh_feature_flags_result_shape_witness :
  let w := demo_world [demo_flag]
             [[((".appconfig.featureflag/beta", "prod"), Some "v0")]] in
  let run := @refresh_feature_flags store store_client string braces_decoder
               demo_prefix (demo_replica 1) 0%nat
               [{| key_filter := ""; label_filter := "prod" |}] [] None w in
  count_events is_flag_reload (trace run.2) = 1%nat.
Proof.
  intros w run.
  destruct (@refresh_feature_flags_result_shape store store_client string
              braces_decoder demo_prefix (demo_replica 1)
              [{| key_filter := ""; label_filter := "prod" |}] [] None 0%nat w
              run.1 run.2 (trace run.2) eq_refl eq_refl)
    as (_ & Hchanged & _).
  exact (proj2 (proj2 (Hchanged (Some 2%nat) (Some ["{ }"]) eq_refl))).
Defined.
